(** * A shallow embedding of the single-instrument order book of
    src/src/main.cpp (classes Order, OrderModify, TradeInfo, Trade and
    Orderbook), and its verification against the specification.

    Modelling choices:
    - Price (int32), Quantity (uint32) and OrderId (uint64) are Z; the only
      arithmetic on them is the uint32 subtraction in Order::Fill, written
      with its wrap-around.
    - std::list<OrderPointer> is a Rocq list of orders, front first.
    - std::map<Price, OrderPointers, Cmp> is a list of (key, level) pairs in
      the map's iteration order; operator[], at, erase(key) are written out.
    - std::unordered_map<OrderId, OrderEntry> is a gmap.  The entry's
      iterator is modelled by the order id it designates: erasing through
      the stored iterator removes the node holding that order.
    - Exceptions (std::logic_error from Fill, std::out_of_range from
      map::at) are the constructors of [Error]; an operation returns
      [Ok _] or [Throw _].
    - A member function declared to return Trades that reaches the end of
      its body without a return statement yields no value: such a result
      is [None] in an [option Trades]. *)

From Stdlib Require Import ZArith Lia Sorting.Sorted.
From stdpp Require Import base gmap list.

Open Scope Z_scope.

(* ------------------------------------------------------------------ *)
(** ** Basic types *)

Inductive OrderType := GoodTillCancel | FillAndKill.
Inductive Side := Buy | Sell.

Definition Price := Z.
Definition Quantity := Z.
Definition OrderId := Z.

Definition OrderType_eqb (a b : OrderType) : bool :=
  match a, b with
  | GoodTillCancel, GoodTillCancel | FillAndKill, FillAndKill => true
  | _, _ => false
  end.

(** uint32 subtraction *)
Definition u32_sub (a b : Z) : Z := (a - b) mod 2 ^ 32.

(* ------------------------------------------------------------------ *)
(** ** class Order *)

Record Order := mkOrder {
  orderType_ : OrderType;
  orderId_ : OrderId;
  side_ : Side;
  price_ : Price;
  initialQuantity_ : Quantity;
  remainingQuantity_ : Quantity
}.

(** Order(orderType, orderId, side, price, quantity) *)
Definition Order_new (orderType : OrderType) (orderId : OrderId) (side : Side)
    (price : Price) (quantity : Quantity) : Order :=
  mkOrder orderType orderId side price quantity quantity.

Definition GetOrderId (o : Order) : OrderId := orderId_ o.
Definition GetSide (o : Order) : Side := side_ o.
Definition GetPrice (o : Order) : Price := price_ o.
Definition GetOrderType (o : Order) : OrderType := orderType_ o.
Definition GetInitialQuantity (o : Order) : Quantity := initialQuantity_ o.
Definition GetRemainingQuantity (o : Order) : Quantity := remainingQuantity_ o.
Definition GetFilledQuantity (o : Order) : Quantity :=
  u32_sub (GetInitialQuantity o) (GetRemainingQuantity o).
Definition IsFilled (o : Order) : bool := GetRemainingQuantity o =? 0.

(** The exceptions the code can raise. *)
Inductive Error :=
| InvalidFillError (orderId : OrderId)  (* std::logic_error thrown by Order::Fill *)
| OutOfRange.                           (* std::out_of_range thrown by map::at *)

Inductive except (A : Type) :=
| Ok (a : A)
| Throw (e : Error).
Arguments Ok {A} a.
Arguments Throw {A} e.

Definition bind {A B} (m : except A) (k : A -> except B) : except B :=
  match m with
  | Ok a => k a
  | Throw e => Throw e
  end.

Notation "'let*' x := m 'in' k" := (bind m (fun x => k))
  (at level 200, x name, m at level 100, k at level 200).
Notation "'let*' ' p := m 'in' k" := (bind m (fun p => k))
  (at level 200, p pattern, m at level 100, k at level 200).

(** Order::Fill *)
Definition Fill (o : Order) (quantity : Quantity) : except Order :=
  if quantity >? GetRemainingQuantity o then Throw (InvalidFillError (GetOrderId o))
  else Ok {| orderType_ := orderType_ o;
             orderId_ := orderId_ o;
             side_ := side_ o;
             price_ := price_ o;
             initialQuantity_ := initialQuantity_ o;
             remainingQuantity_ := u32_sub (remainingQuantity_ o) quantity |}.

Definition OrderPointers := list Order.

(* ------------------------------------------------------------------ *)
(** ** class OrderModify *)

Module OrderModify.
Record t := mk {
  orderId_ : OrderId;
  price_ : Price;
  side_ : Side;
  quantity_ : Quantity
}.
Definition GetOrderId (m : t) : OrderId := orderId_ m.
Definition GetPrice (m : t) : Price := price_ m.
Definition GetSide (m : t) : Side := side_ m.
Definition GetQuantity (m : t) : Quantity := quantity_ m.
(** OrderModify::ToOrderPointer *)
Definition ToOrderPointer (m : t) (type : OrderType) : Order :=
  Order_new type (GetOrderId m) (GetSide m) (GetPrice m) (GetQuantity m).
End OrderModify.

(* ------------------------------------------------------------------ *)
(** ** struct TradeInfo, class Trade *)

Module TradeInfo.
Record t := mk {
  orderId_ : OrderId;
  price_ : Price;
  quantity_ : Quantity
}.
End TradeInfo.

Record Trade := mkTrade {
  bidTrade_ : TradeInfo.t;
  askTrade_ : TradeInfo.t
}.

Definition GetBidTrade (t : Trade) : TradeInfo.t := bidTrade_ t.
Definition GetAskTrade (t : Trade) : TradeInfo.t := askTrade_ t.

Definition Trades := list Trade.

(* ------------------------------------------------------------------ *)
(** ** std::map<Price, OrderPointers, Cmp> *)

(** A price ladder: the map's entries in iteration order (begin() first). *)
Definition Ladder := list (Price * OrderPointers).

(** map::at / map::find: the level stored under [p]. *)
Fixpoint level_at (p : Price) (l : Ladder) : option OrderPointers :=
  match l with
  | [] => None
  | (k, q) :: l' => if k =? p then Some q else level_at p l'
  end.

(** Writing back a level mutated in place through a reference into the map. *)
Fixpoint level_set (p : Price) (q : OrderPointers) (l : Ladder) : Ladder :=
  match l with
  | [] => []
  | (k, q0) :: l' => if k =? p then (k, q) :: l' else (k, q0) :: level_set p q l'
  end.

(** map::erase(key) *)
Fixpoint level_erase (p : Price) (l : Ladder) : Ladder :=
  match l with
  | [] => []
  | (k, q) :: l' => if k =? p then l' else (k, q) :: level_erase p l'
  end.

(** [ladder[p].push_back(o)]: operator[] finds the level of [p] or inserts an
    empty one at its place in the order given by the comparator [cmp]
    (std::greater for bids, std::less for asks); push_back appends. *)
Fixpoint level_push (cmp : Z -> Z -> bool) (p : Price) (o : Order) (l : Ladder) : Ladder :=
  match l with
  | [] => [(p, [o])]
  | (k, q) :: l' =>
      if k =? p then (k, q ++ [o]) :: l'
      else if cmp p k then (p, [o]) :: l
      else (k, q) :: level_push cmp p o l'
  end.

(** OrderPointers::erase(iterator): the iterator stored for [orderId]
    designates the node holding the order with that id. *)
Fixpoint erase_order (orderId : OrderId) (q : OrderPointers) : OrderPointers :=
  match q with
  | [] => []
  | o :: q' => if GetOrderId o =? orderId then q' else o :: erase_order orderId q'
  end.

(* ------------------------------------------------------------------ *)
(** ** class Orderbook *)

(** struct OrderEntry: the shared pointer to the order and its locator.
    Through [order_] the code only reads the id, side and price, which
    never change, so the snapshot taken at insertion is what it reads. *)
Record OrderEntry := mkEntry { order_ : Order }.

Record Orderbook := mkBook {
  bids_ : Ladder;                     (* std::map<..., std::greater<Price>> *)
  asks_ : Ladder;                     (* std::map<..., std::less<Price>> *)
  orders_ : gmap OrderId OrderEntry   (* std::unordered_map<OrderId, OrderEntry> *)
}.

Definition empty_book : Orderbook := mkBook [] [] ∅.

Definition contains (m : gmap OrderId OrderEntry) (k : OrderId) : bool :=
  match m !! k with Some _ => true | None => false end.

(** Orderbook::CanMatch *)
Definition CanMatch (ob : Orderbook) (side : Side) (price : Price) : bool :=
  match side with
  | Buy =>
      match asks_ ob with
      | [] => false
      | (bestAsk, _) :: _ => price >=? bestAsk
      end
  | Sell =>
      match bids_ ob with
      | [] => false
      | (bestBid, _) :: _ => price <=? bestBid
      end
  end.

(** The Trade that lines 240-243 of Orderbook::MatchOrders mean to push:
    ids and prices of the filled [bid] and [ask], and the matched
    quantity.  The code reads the ids and prices through the references
    [bid] and [ask] of lines 213-214, and at least one of them dangles by
    then (see [PassRefs] below): the values here are the ones the code
    intends, and the book state computed around them does not depend on
    them. *)
Definition MakeTrade (bid ask : Order) (quantity : Quantity) : Trade :=
  mkTrade (TradeInfo.mk (GetOrderId bid) (GetPrice bid) quantity)
          (TradeInfo.mk (GetOrderId ask) (GetPrice ask) quantity).

(** A reference [auto& x = level.front()] into a std::list of
    shared_ptr<Order>: live, or dangling once the list node it names has
    been destroyed. *)
Inductive Ref :=
| Live (o : Order)
| Dangling.

Definition deref (r : Ref) : option Order :=
  match r with
  | Live o => Some o
  | Dangling => None
  end.

(** One pass of the inner loop of Orderbook::MatchOrders (lines 213-233),
    as seen by the references [bid] and [ask] at lines 240-243.  A side
    that is filled is popped by [bids.pop_front()] (225) or
    [asks.pop_front()] (231), which destroys the list node its reference
    names; [orders_.erase] (226, 232) then drops the other owner of the
    Order, which frees it. *)
Definition PassRefs (bid ask : Order) : except (Ref * Ref) :=
  let quantity := Z.min (GetRemainingQuantity bid) (GetRemainingQuantity ask) in
  let* bid := Fill bid quantity in
  let* ask := Fill ask quantity in
  let bidRef := if IsFilled bid then Dangling else Live bid in
  let askRef := if IsFilled ask then Dangling else Live ask in
  Ok (bidRef, askRef).

(** The Trade pushed at lines 240-243 of that pass, [None] when building
    it reads [bid->GetOrderId()], [bid->GetPrice()], [ask->GetOrderId()]
    or [ask->GetPrice()] through a dangling reference (undefined
    behaviour). *)
Definition PassTrade (bid ask : Order) : except (option Trade) :=
  let quantity := Z.min (GetRemainingQuantity bid) (GetRemainingQuantity ask) in
  let* '(bidRef, askRef) := PassRefs bid ask in
  Ok (match deref bidRef, deref askRef with
      | Some bid, Some ask => Some (MakeTrade bid ask quantity)
      | _, _ => None
      end).

(** The inner loop of Orderbook::MatchOrders,
    [while (bids.size() && asks.size()) { ... }], on the best bid level
    [bids] and the best ask level [asks].  Every pass pops at least one
    order, so [length bids + length asks] passes suffice.  When a level
    becomes empty the code erases it from its ladder and the loop
    condition ends the loop; the erasure is done by the caller
    [MatchLoop] when it writes the two levels back. *)
Fixpoint MatchLevels (fuel : nat) (bids asks : OrderPointers)
    (orders : gmap OrderId OrderEntry) (trades : Trades)
    : except (OrderPointers * OrderPointers * gmap OrderId OrderEntry * Trades) :=
  match fuel with
  | O => Ok (bids, asks, orders, trades)
  | S fuel' =>
      match bids, asks with
      | bid :: bidsRest, ask :: asksRest =>
          let quantity := Z.min (GetRemainingQuantity bid) (GetRemainingQuantity ask) in
          let* bid := Fill bid quantity in
          let* ask := Fill ask quantity in
          let '(bids, orders) :=
            if IsFilled bid then (bidsRest, delete (GetOrderId bid) orders)
            else (bid :: bidsRest, orders) in
          let '(asks, orders) :=
            if IsFilled ask then (asksRest, delete (GetOrderId ask) orders)
            else (ask :: asksRest, orders) in
          MatchLevels fuel' bids asks orders (trades ++ [MakeTrade bid ask quantity])
      | _, _ => Ok (bids, asks, orders, trades)
      end
  end.

(** The outer [while (true)] loop of Orderbook::MatchOrders.  [bidPrice]
    and [askPrice] are the keys at begin(), so [bids_.erase(bidPrice)]
    removes the first entry of the ladder. *)
Fixpoint MatchLoop (fuel : nat) (ob : Orderbook) (trades : Trades)
    : except (Orderbook * Trades) :=
  match fuel with
  | O => Ok (ob, trades)
  | S fuel' =>
      match bids_ ob, asks_ ob with
      | (bidPrice, bids) :: bidLevels, (askPrice, asks) :: askLevels =>
          if bidPrice <? askPrice then Ok (ob, trades)
          else
            let* '(bids, asks, orders, trades) :=
              MatchLevels (length bids + length asks) bids asks (orders_ ob) trades in
            MatchLoop fuel'
              {| bids_ := match bids with [] => bidLevels | _ => (bidPrice, bids) :: bidLevels end;
                 asks_ := match asks with [] => askLevels | _ => (askPrice, asks) :: askLevels end;
                 orders_ := orders |}
              trades
      | _, _ => Ok (ob, trades)
      end
  end.

(** All resting orders, level by level. *)
Definition ladder_orders (l : Ladder) : list Order := concat (map snd l).
Definition book_orders (ob : Orderbook) : list Order :=
  ladder_orders (bids_ ob) ++ ladder_orders (asks_ ob).

(** Every pass of the outer loop over crossed, non-empty best levels
    removes at least one order: one pass more than there are resting
    orders suffices. *)
Definition match_fuel (ob : Orderbook) : nat := S (length (book_orders ob)).

(** The statements of Orderbook::CancelOrder on one ladder once the level
    [orders] of [price] has been found with [at]:
    [orders.erase(orderIterator); if (orders.empty()) ladder.erase(price);] *)
Definition erase_from_level (ladder : Ladder) (price : Price) (orders : OrderPointers)
    (orderId : OrderId) : Ladder :=
  let orders := erase_order orderId orders in
  let ladder := level_set price orders ladder in
  match orders with [] => level_erase price ladder | _ => ladder end.

(** Orderbook::CancelOrder.  The structured binding reads the entry, which
    is then erased from [orders_]. *)
Definition CancelOrder (ob : Orderbook) (orderId : OrderId) : except Orderbook :=
  match orders_ ob !! orderId with
  | None => Ok ob
  | Some entry =>
      let order := order_ entry in
      let orders := delete orderId (orders_ ob) in
      let price := GetPrice order in
      match GetSide order with
      | Sell =>
          match level_at price (asks_ ob) with
          | None => Throw OutOfRange
          | Some lvl =>
              Ok {| bids_ := bids_ ob;
                    asks_ := erase_from_level (asks_ ob) price lvl orderId;
                    orders_ := orders |}
          end
      | Buy =>
          match level_at price (bids_ ob) with
          | None => Throw OutOfRange
          | Some lvl =>
              Ok {| bids_ := erase_from_level (bids_ ob) price lvl orderId;
                    asks_ := asks_ ob;
                    orders_ := orders |}
          end
      end
  end.

(** The fill-and-kill check at the end of Orderbook::MatchOrders, on the
    front order of the best level of one ladder. *)
Definition CancelFrontFillAndKill (ob : Orderbook) (l : Ladder) : except Orderbook :=
  match l with
  | (_, order :: _) :: _ =>
      if OrderType_eqb (GetOrderType order) FillAndKill
      then CancelOrder ob (GetOrderId order) else Ok ob
  | _ => Ok ob
  end.

(** The body of Orderbook::MatchOrders: the resulting book and the local
    vector [trades] it fills. *)
Definition MatchOrders_body (ob : Orderbook) : except (Orderbook * Trades) :=
  let* '(ob, trades) := MatchLoop (match_fuel ob) ob [] in
  let* ob := CancelFrontFillAndKill ob (bids_ ob) in
  let* ob := CancelFrontFillAndKill ob (asks_ ob) in
  Ok (ob, trades).

(** Orderbook::MatchOrders: the body ends without a return statement, so
    the call yields no Trades value. *)
Definition MatchOrders (ob : Orderbook) : except (Orderbook * option Trades) :=
  let* '(ob, _) := MatchOrders_body ob in
  Ok (ob, None).

(** The insertion step of Orderbook::AddOrder: push_back on the level of
    the order's price, and [orders_.insert] of its entry. *)
Definition InsertOrder (ob : Orderbook) (order : Order) : Orderbook :=
  match GetSide order with
  | Buy =>
      {| bids_ := level_push Z.gtb (GetPrice order) order (bids_ ob);
         asks_ := asks_ ob;
         orders_ := <[GetOrderId order := mkEntry order]> (orders_ ob) |}
  | Sell =>
      {| bids_ := bids_ ob;
         asks_ := level_push Z.ltb (GetPrice order) order (asks_ ob);
         orders_ := <[GetOrderId order := mkEntry order]> (orders_ ob) |}
  end.

(** Orderbook::AddOrder *)
Definition AddOrder (ob : Orderbook) (order : Order) : except (Orderbook * option Trades) :=
  if contains (orders_ ob) (GetOrderId order) then Ok (ob, Some [])
  else if OrderType_eqb (GetOrderType order) FillAndKill
          && negb (CanMatch ob (GetSide order) (GetPrice order))
  then Ok (ob, Some [])
  else MatchOrders (InsertOrder ob order).

(** Orderbook::MatchOrder (the modify operation): after the guard the body
    ends without a statement, so nothing changes and no value is
    returned. *)
Definition MatchOrder (ob : Orderbook) (order : OrderModify.t) : except (Orderbook * option Trades) :=
  if negb (contains (orders_ ob) (OrderModify.GetOrderId order)) then Ok (ob, Some [])
  else Ok (ob, None).


(* ------------------------------------------------------------------ *)
(** ** Observations on a book, and the operations a caller can issue *)

(** The best prices: the keys at begin() of each ladder. *)
Definition best_price (l : Ladder) : option Price :=
  match l with [] => None | (k, _) :: _ => Some k end.
Definition bestBidPrice (ob : Orderbook) : option Price := best_price (bids_ ob).
Definition bestAskPrice (ob : Orderbook) : option Price := best_price (asks_ ob).

(** The book is not crossed: one ladder is empty or the best bid is below
    the best ask. *)
Definition not_crossed (ob : Orderbook) : Prop :=
  match bestBidPrice ob, bestAskPrice ob with
  | Some b, Some a => b < a
  | _, _ => True
  end.

(** [o] rests in the book (in either ladder). *)
Definition rests (ob : Orderbook) (o : Order) : Prop := In o (book_orders ob).

(** The ladder holding the orders of side [s]. *)
Definition side_ladder (ob : Orderbook) (s : Side) : Ladder :=
  match s with Buy => bids_ ob | Sell => asks_ ob end.

(** A remaining quantity that is a uint32 value. *)
Definition in_range (o : Order) : Prop := 0 <= GetRemainingQuantity o < 2 ^ 32.

(** Total remaining quantity of some orders, and total quantity of one
    side ([GetBidTrade] or [GetAskTrade]) of some trades. *)
Definition remaining_sum (os : list Order) : Z :=
  fold_right (fun o acc => GetRemainingQuantity o + acc) 0 os.
Definition traded_sum (side : Trade -> TradeInfo.t) (ts : Trades) : Z :=
  fold_right (fun t acc => TradeInfo.quantity_ (side t) + acc) 0 ts.

(** Whether AddOrder gets past its two guards and inserts the order. *)
Definition AddOrder_admits (ob : Orderbook) (order : Order) : bool :=
  negb (contains (orders_ ob) (GetOrderId order))
  && negb (OrderType_eqb (GetOrderType order) FillAndKill
           && negb (CanMatch ob (GetSide order) (GetPrice order))).

(** Submission history: the ids of the admitted orders, in the order of
    their AddOrder calls.  [last_index h x] is the position of the last
    admission of [x]; an id is re-admitted only after its order has left
    the book, so for a resting order it is that order's submission. *)
Fixpoint last_index_from (h : list OrderId) (x : OrderId) (i : nat) (acc : option nat) : option nat :=
  match h with
  | [] => acc
  | y :: h' => last_index_from h' x (S i) (if y =? x then Some i else acc)
  end.
Definition last_index (h : list OrderId) (x : OrderId) : option nat :=
  last_index_from h x 0 None.

Definition submitted_before (h : list OrderId) (x y : OrderId) : Prop :=
  exists i j, last_index h x = Some i /\ last_index h y = Some j /\ (i < j)%nat.

(** The books a sequence of calls can produce from the empty book, with
    the submission history of the admitted orders.  Orders reach AddOrder
    through their constructor.  A call that throws produces no book. *)
Inductive reachable : Orderbook -> list OrderId -> Prop :=
| reachable_empty : reachable empty_book []
| reachable_add ob h t i s p q ob' r :
    reachable ob h ->
    AddOrder ob (Order_new t i s p q) = Ok (ob', r) ->
    reachable ob' (if AddOrder_admits ob (Order_new t i s p q) then h ++ [i] else h)
| reachable_cancel ob h i ob' :
    reachable ob h ->
    CancelOrder ob i = Ok ob' ->
    reachable ob' h
| reachable_modify ob h m ob' r :
    reachable ob h ->
    MatchOrder ob m = Ok (ob', r) ->
    reachable ob' h.

(* ------------------------------------------------------------------ *)
(** ** The invariant of the reachable books *)

(** Two orders that differ at most in their remaining quantity. *)
Definition same_key (o o' : Order) : Prop :=
  GetOrderType o = GetOrderType o' /\ GetOrderId o = GetOrderId o' /\
  GetSide o = GetSide o' /\ GetPrice o = GetPrice o' /\
  GetInitialQuantity o = GetInitialQuantity o'.

(** [q'] is what remains of the level [q] after orders were removed and
    the remaining quantity of its new front order was lowered. *)
Definition qsub (q' q : OrderPointers) : Prop :=
  q' = [] \/ exists o o' t, same_key o o' /\ q' = o' :: t /\ (o :: t) `sublist_of` q.

(** [l'] is [l] with levels dropped and levels shrunk as above. *)
Inductive ladder_sub : Ladder -> Ladder -> Prop :=
| ladder_sub_nil : ladder_sub [] []
| ladder_sub_drop k q l' l : ladder_sub l' l -> ladder_sub l' ((k, q) :: l)
| ladder_sub_keep k q q' l' l : qsub q' q -> ladder_sub l' l -> ladder_sub ((k, q') :: l') ((k, q) :: l).

(** An order has not been filled at all. *)
Definition unfilled (o : Order) : Prop := GetRemainingQuantity o = GetInitialQuantity o.

(** A level of side [s] at price [p]: non-empty, orders of that side and
    price, admitted in the history [h]; only the front order may have
    been partly filled; the queue is in submission order. *)
Definition level_ok (s : Side) (h : list OrderId) (lv : Price * OrderPointers) : Prop :=
  snd lv <> [] /\
  Forall (fun o => GetSide o = s /\ GetPrice o = fst lv /\ In (GetOrderId o) h) (snd lv) /\
  Forall unfilled (tail (snd lv)) /\
  StronglySorted (submitted_before h) (map GetOrderId (snd lv)).

(** The index maps exactly the ids of the resting orders, each to an
    entry with that order's side and price. *)
Definition index_ok (orders : gmap OrderId OrderEntry) (os : list Order) : Prop :=
  forall x,
    match orders !! x with
    | None => forall o, In o os -> GetOrderId o <> x
    | Some e => exists o, In o os /\ GetOrderId o = x /\
                          GetSide o = GetSide (order_ e) /\ GetPrice o = GetPrice (order_ e)
    end.

Definition bids_sorted (l : Ladder) : Prop := StronglySorted (fun a b => fst b < fst a) l.
Definition asks_sorted (l : Ladder) : Prop := StronglySorted (fun a b => fst a < fst b) l.

Record book_inv (ob : Orderbook) (h : list OrderId) : Prop := {
  inv_bids_sorted : bids_sorted (bids_ ob);
  inv_asks_sorted : asks_sorted (asks_ ob);
  inv_bids_levels : Forall (level_ok Buy h) (bids_ ob);
  inv_asks_levels : Forall (level_ok Sell h) (asks_ ob);
  inv_nodup : NoDup (map GetOrderId (book_orders ob));
  inv_index : index_ok (orders_ ob) (book_orders ob)
}.

Definition is_fak (o : Order) : bool := OrderType_eqb (GetOrderType o) FillAndKill.

(** No FillAndKill order among [os]. *)
Definition no_fak (os : list Order) : Prop := Forall (fun o => is_fak o = false) os.

(** A FillAndKill order, if any, is the front order of the best level. *)
Definition fak_front (l : Ladder) : Prop :=
  match l with
  | [] => True
  | (_, q) :: l' => no_fak (tail q) /\ no_fak (ladder_orders l')
  end.

Definition reach_inv (ob : Orderbook) (h : list OrderId) : Prop :=
  book_inv ob h /\ not_crossed ob /\ no_fak (book_orders ob).

(* ------------------------------------------------------------------ *)
(** ** Concrete books from the end-to-end scenarios of the specification *)

Definition order1 : Order := Order_new GoodTillCancel 1 Buy 100 10.
Definition order2 : Order := Order_new GoodTillCancel 2 Sell 100 20.

(** The book after [AddOrder(GoodTillCancel, Buy, id=1, price=100, qty=10)]. *)
Definition book1 : Orderbook :=
  {| bids_ := [(100, [order1])]; asks_ := []; orders_ := {[1 := mkEntry order1]} |}.

(** The book after the second order of scenario 1 has matched: order 2
    rests with 10 remaining. *)
Definition book2 : Orderbook :=
  {| bids_ := [];
     asks_ := [(100, [mkOrder GoodTillCancel 2 Sell 100 20 10])];
     orders_ := {[2 := mkEntry order2]} |}.

Definition order5 : Order := Order_new GoodTillCancel 5 Buy 10 3.
Definition order7 : Order := Order_new GoodTillCancel 7 Sell 12 3.

(** The book just before the matching pass of the second order of
    scenario 1: buy 10 at 100 against sell 20 at 100. *)
Definition book12 : Orderbook := InsertOrder book1 order2.

(** Scenario 4: order 5 rests at 10, an ask rests at 12. *)
Definition book5 : Orderbook :=
  {| bids_ := [(10, [order5])]; asks_ := []; orders_ := {[5 := mkEntry order5]} |}.
Definition book57 : Orderbook :=
  {| bids_ := [(10, [order5])]; asks_ := [(12, [order7])];
     orders_ := <[7 := mkEntry order7]> {[5 := mkEntry order5]} |}.

(** [ModifyOrder(id=5, side=Buy, price=12, qty=3)] *)
Definition modify5 : OrderModify.t := OrderModify.mk 5 12 Buy 3.

(** Price-time priority: a second buy joins order 5 at 10, then a sell of
    1 at 10 fills part of order 5. *)
Definition order6 : Order := Order_new GoodTillCancel 6 Buy 10 4.
Definition order8 : Order := Order_new GoodTillCancel 8 Sell 10 1.
Definition book56 : Orderbook :=
  {| bids_ := [(10, [order5; order6])]; asks_ := [];
     orders_ := <[6 := mkEntry order6]> {[5 := mkEntry order5]} |}.
Definition order5_part : Order := mkOrder GoodTillCancel 5 Buy 10 3 2.
Definition book568 : Orderbook :=
  {| bids_ := [(10, [order5_part; order6])]; asks_ := [];
     orders_ := <[6 := mkEntry order6]> {[5 := mkEntry order5]} |}.

(** A FillAndKill sell of 15 at 100 against order 1 (buy 10 at 100). *)
Definition order3_fak : Order := Order_new FillAndKill 3 Sell 100 15.

(* ------------------------------------------------------------------ *)
(** ** Properties *)

(** *** CanMatch *)

(** C4: [CanMatch(Buy, price)] holds iff the ask ladder is non-empty and
    [price] is at least the best ask; [CanMatch(Sell, price)] holds iff the
    bid ladder is non-empty and [price] is at most the best bid. *)
Theorem CanMatch_spec (ob : Orderbook) (price : Price) :
  (CanMatch ob Buy price = true <-> exists a, bestAskPrice ob = Some a /\ a <= price) /\
  (CanMatch ob Sell price = true <-> exists b, bestBidPrice ob = Some b /\ price <= b).
Proof.
  unfold CanMatch, bestAskPrice, bestBidPrice, best_price.
  split; split.
  - destruct (asks_ ob) as [|[a q] l]; [discriminate|].
    intros H. exists a. split; [reflexivity|]. apply Z.geb_le in H. lia.
  - intros [a [Ha Hle]]. destruct (asks_ ob) as [|[a' q] l]; [discriminate|].
    injection Ha as ->. apply Z.geb_le. lia.
  - destruct (bids_ ob) as [|[b q] l]; [discriminate|].
    intros H. exists b. split; [reflexivity|]. apply Z.leb_le in H. lia.
  - intros [b [Hb Hle]]. destruct (bids_ ob) as [|[b' q] l]; [discriminate|].
    injection Hb as ->. apply Z.leb_le. lia.
Qed.

(** *** Order::Fill *)

(** C8: on an order with [0 <= remaining <= initial < 2^32] and a uint32
    quantity, Fill fails with InvalidFillError exactly when the quantity
    exceeds the remaining quantity; otherwise it lowers the remaining
    quantity by exactly that amount, keeps every other field, and the
    result again has [0 <= remaining <= initial]. *)
Theorem Fill_spec (o : Order) (qty : Quantity) :
  0 <= qty < 2 ^ 32 ->
  0 <= GetRemainingQuantity o <= GetInitialQuantity o ->
  GetInitialQuantity o < 2 ^ 32 ->
  (Fill o qty = Throw (InvalidFillError (GetOrderId o)) <-> GetRemainingQuantity o < qty) /\
  (forall e, Fill o qty = Throw e -> e = InvalidFillError (GetOrderId o)) /\
  (qty <= GetRemainingQuantity o ->
   Fill o qty = Ok (mkOrder (GetOrderType o) (GetOrderId o) (GetSide o) (GetPrice o)
                            (GetInitialQuantity o) (GetRemainingQuantity o - qty)) /\
   0 <= GetRemainingQuantity o - qty <= GetInitialQuantity o).
Proof.
  intros Hq Hr Hi. unfold Fill, GetRemainingQuantity, GetInitialQuantity, GetOrderId,
    GetOrderType, GetSide, GetPrice in *.
  destruct o as [t i s p init rem]; simpl in *.
  split; [|split].
  - destruct (qty >? rem) eqn:E.
    + apply Z.gtb_lt in E. split; [intros _; lia | reflexivity].
    + rewrite Z.gtb_ltb in E. apply Z.ltb_ge in E. split; [discriminate | lia].
  - intros e. destruct (qty >? rem); [congruence | discriminate].
  - intros Hle. destruct (qty >? rem) eqn:E; [apply Z.gtb_lt in E; lia|].
    split; [|lia]. unfold u32_sub. rewrite Z.mod_small by lia. reflexivity.
Qed.

(** *** The no-op paths *)

(** C9: AddOrder with an id already in the index, CancelOrder and the
    modify operation with an unknown id, and a FillAndKill order that
    cannot match, each return an empty trade list (CancelOrder returns
    nothing) and leave the whole book unchanged. *)
Theorem noop_paths_unchanged :
  (forall (ob : Orderbook) (o : Order),
      contains (orders_ ob) (GetOrderId o) = true -> AddOrder ob o = Ok (ob, Some [])) /\
  (forall (ob : Orderbook) (orderId : OrderId),
      orders_ ob !! orderId = None -> CancelOrder ob orderId = Ok ob) /\
  (forall (ob : Orderbook) (m : OrderModify.t),
      orders_ ob !! OrderModify.GetOrderId m = None -> MatchOrder ob m = Ok (ob, Some [])) /\
  (forall (ob : Orderbook) (o : Order),
      GetOrderType o = FillAndKill -> CanMatch ob (GetSide o) (GetPrice o) = false ->
      AddOrder ob o = Ok (ob, Some [])).
Proof.
  split; [|split; [|split]].
  - intros ob o H. unfold AddOrder. rewrite H. reflexivity.
  - intros ob x H. unfold CancelOrder. rewrite H. reflexivity.
  - intros ob m H. unfold MatchOrder, contains. rewrite H. reflexivity.
  - intros ob o Ht Hc. unfold AddOrder. rewrite Ht, Hc.
    destruct (contains (orders_ ob) (GetOrderId o)); reflexivity.
Qed.

(** *** The matching loop never raises InvalidFillError *)

Lemma Fill_within (o : Order) (qty : Quantity) :
  qty <= GetRemainingQuantity o ->
  Fill o qty = Ok (mkOrder (orderType_ o) (orderId_ o) (side_ o) (price_ o)
                           (initialQuantity_ o) (u32_sub (remainingQuantity_ o) qty)).
Proof.
  intros H. unfold Fill. destruct (qty >? GetRemainingQuantity o) eqn:E.
  - apply Z.gtb_lt in E. lia.
  - reflexivity.
Qed.

Lemma Fill_min_l (o o' : Order) :
  Fill o (Z.min (GetRemainingQuantity o) (GetRemainingQuantity o')) =
  Ok (mkOrder (orderType_ o) (orderId_ o) (side_ o) (price_ o) (initialQuantity_ o)
        (u32_sub (remainingQuantity_ o) (Z.min (GetRemainingQuantity o) (GetRemainingQuantity o')))).
Proof. apply Fill_within. lia. Qed.

Lemma Fill_min_r (o o' : Order) :
  Fill o' (Z.min (GetRemainingQuantity o) (GetRemainingQuantity o')) =
  Ok (mkOrder (orderType_ o') (orderId_ o') (side_ o') (price_ o') (initialQuantity_ o')
        (u32_sub (remainingQuantity_ o') (Z.min (GetRemainingQuantity o) (GetRemainingQuantity o')))).
Proof. apply Fill_within. lia. Qed.

Lemma MatchLevels_ok fuel bids asks orders trades :
  exists r, MatchLevels fuel bids asks orders trades = Ok r.
Proof.
  revert bids asks orders trades.
  induction fuel as [|fuel IH]; intros bids asks orders trades; simpl.
  - eauto.
  - destruct bids as [|bid bidsRest]; [eauto|].
    destruct asks as [|ask asksRest]; [eauto|].
    rewrite Fill_min_l, Fill_min_r. simpl.
    destruct (IsFilled _), (IsFilled _); apply IH.
Qed.

Lemma MatchLoop_ok fuel ob trades : exists r, MatchLoop fuel ob trades = Ok r.
Proof.
  revert ob trades. induction fuel as [|fuel IH]; intros ob trades; simpl; [eauto|].
  destruct (bids_ ob) as [|[bidPrice bids] bidLevels]; [eauto|].
  destruct (asks_ ob) as [|[askPrice asks] askLevels]; [eauto|].
  destruct (bidPrice <? askPrice); [eauto|].
  destruct (MatchLevels_ok (length bids + length asks) bids asks (orders_ ob) trades)
    as [[[[b a] o] t] ->].
  apply IH.
Qed.

Lemma CancelOrder_throw ob orderId e : CancelOrder ob orderId = Throw e -> e = OutOfRange.
Proof.
  unfold CancelOrder. destruct (orders_ ob !! orderId) as [entry|]; [|discriminate].
  destruct (GetSide (order_ entry)).
  - destruct (level_at _ (bids_ ob)); [discriminate | congruence].
  - destruct (level_at _ (asks_ ob)); [discriminate | congruence].
Qed.

Lemma CancelFrontFillAndKill_throw ob l e :
  CancelFrontFillAndKill ob l = Throw e -> e = OutOfRange.
Proof.
  unfold CancelFrontFillAndKill. destruct l as [|[k [|o q]] l]; try discriminate.
  destruct (OrderType_eqb _ _); [apply CancelOrder_throw | discriminate].
Qed.

Lemma MatchOrders_body_throw ob e : MatchOrders_body ob = Throw e -> e = OutOfRange.
Proof.
  unfold MatchOrders_body.
  destruct (MatchLoop_ok (match_fuel ob) ob []) as [[ob1 trades] ->]. simpl.
  destruct (CancelFrontFillAndKill ob1 (bids_ ob1)) as [ob2|e2] eqn:E2; simpl.
  - destruct (CancelFrontFillAndKill ob2 (asks_ ob2)) as [ob3|e3] eqn:E3; simpl.
    + discriminate.
    + intros [= <-]. eapply CancelFrontFillAndKill_throw; eauto.
  - intros [= <-]. eapply CancelFrontFillAndKill_throw; eauto.
Qed.

(** C10: the quantity passed to Fill in the matching loop is the minimum
    of the two front orders' remaining quantities, so neither Fill can
    throw: MatchOrders (its body, and the call as a whole) never ends in
    InvalidFillError, whatever the book. *)
Theorem MatchOrders_no_InvalidFill (ob : Orderbook) (e : OrderId) :
  MatchOrders_body ob <> Throw (InvalidFillError e) /\
  MatchOrders ob <> Throw (InvalidFillError e).
Proof.
  split.
  - intros H. apply MatchOrders_body_throw in H. discriminate.
  - unfold MatchOrders. destruct (MatchOrders_body ob) as [[ob' t]|e'] eqn:E; simpl.
    + discriminate.
    + intros [= He]. subst e'. apply MatchOrders_body_throw in E. discriminate.
Qed.

(** *** The trades of the matching loop *)

Lemma MatchLevels_trades_prefix fuel bids asks orders trades bids' asks' orders' trades' :
  MatchLevels fuel bids asks orders trades = Ok (bids', asks', orders', trades') ->
  exists rest, trades' = trades ++ rest.
Proof.
  revert bids asks orders trades.
  induction fuel as [|fuel IH]; intros bids asks orders trades; simpl.
  - intros [= _ _ _ <-]. exists []. by rewrite app_nil_r.
  - destruct bids as [|bid bidsRest]; [intros [= _ _ _ <-]; exists []; by rewrite app_nil_r|].
    destruct asks as [|ask asksRest]; [intros [= _ _ _ <-]; exists []; by rewrite app_nil_r|].
    rewrite Fill_min_l, Fill_min_r. simpl.
    destruct (IsFilled _), (IsFilled _); intros H; destruct (IH _ _ _ _ H) as [rest ->];
      eexists; by rewrite <- app_assoc.
Qed.

(** In every pass of the inner loop at least one of the two front
    orders is filled, since the matched quantity is the smaller remaining
    quantity; its reference dangles at lines 240-243. *)
Lemma PassRefs_dangles (bid ask : Order) :
  exists bidRef askRef : Ref, PassRefs bid ask = Ok (bidRef, askRef) /\
    (bidRef = Dangling \/ askRef = Dangling).
Proof.
  unfold PassRefs. rewrite Fill_min_l, Fill_min_r. simpl bind. cbv zeta.
  unfold IsFilled, GetRemainingQuantity; simpl.
  destruct (Z.le_ge_cases (remainingQuantity_ bid) (remainingQuantity_ ask)) as [Hle|Hle].
  - rewrite Z.min_l by exact Hle. unfold u32_sub. rewrite Z.sub_diag. simpl.
    eexists _, _. split; [reflexivity|]. left. reflexivity.
  - rewrite Z.min_r by lia. unfold u32_sub. rewrite Z.sub_diag. simpl.
    eexists _, _. split; [reflexivity|].
    destruct (_ =? 0); [left|right]; reflexivity.
Qed.

(** C7: the trade built at lines 240-243 reads the ids and prices of
    [bid] and [ask] through the references of lines 213-214, and in every
    pass at least one of them dangles: the filled side was popped from
    its level at 225/231 and its Order erased from [orders_] at 226/232.
    No pass builds a trade from live values.  In scenario 1 (bid 1 at 100
    for 10 against ask 2 at 100 for 20) the bid is filled and popped, so
    [bid->GetOrderId()] and [bid->GetPrice()] read freed memory, while
    the model of the book state takes the intended values. *)
Theorem MatchLevels_trade_reads_dangling :
  (forall bid ask : Order, PassTrade bid ask = Ok None) /\
  PassRefs order1 order2 = Ok (Dangling, Live (mkOrder GoodTillCancel 2 Sell 100 20 10)) /\
  MatchLevels 1 [order1] [order2] ∅ []
    = Ok ([], [mkOrder GoodTillCancel 2 Sell 100 20 10], ∅,
          [mkTrade (TradeInfo.mk 1 100 10) (TradeInfo.mk 2 100 10)]).
Proof.
  split; [|split; vm_compute; reflexivity].
  intros bid ask. unfold PassTrade.
  destruct (PassRefs_dangles bid ask) as (bidRef & askRef & -> & [-> | ->]); simpl.
  - reflexivity.
  - destruct (deref bidRef); reflexivity.
Qed.

(** *** Return values of AddOrder and of the modify operation *)

(** C2 (scenario 1 of the specification): the matching loop of the second
    AddOrder produces one trade, but AddOrder returns no Trades value,
    since MatchOrders ends without returning its vector. *)
Theorem AddOrder_returns_no_trades :
  AddOrder empty_book order1 = Ok (book1, None) /\
  MatchOrders_body (InsertOrder book1 order2)
    = Ok (book2, [mkTrade (TradeInfo.mk 1 100 10) (TradeInfo.mk 2 100 10)]) /\
  AddOrder book1 order2 = Ok (book2, None).
Proof. split; [|split]; vm_compute; reflexivity. Qed.

(** C3 (scenario 4 of the specification): with order 5 resting at 10 and
    an ask resting at 12, the modify request (id 5, Buy, 12, 3) leaves the
    book unchanged, order 5 still resting at 10, and returns no value. *)
Theorem MatchOrder_keeps_order :
  AddOrder empty_book order5 = Ok (book5, None) /\
  AddOrder book5 order7 = Ok (book57, None) /\
  MatchOrder book57 modify5 = Ok (book57, None) /\
  rests book57 order5.
Proof.
  split; [|split; [|split]]; try (vm_compute; reflexivity).
  unfold rests, book_orders, ladder_orders. simpl. left. reflexivity.
Qed.

(** *** Witnesses *)

Lemma Fill_spec_witness :
  (0 <= 4 < 2 ^ 32 /\ 0 <= GetRemainingQuantity order1 <= GetInitialQuantity order1 /\
   GetInitialQuantity order1 < 2 ^ 32) /\
  Fill order1 4 = Ok (mkOrder GoodTillCancel 1 Buy 100 10 6).
Proof.
  assert (H : 0 <= 4 < 2 ^ 32 /\ 0 <= GetRemainingQuantity order1 <= GetInitialQuantity order1 /\
              GetInitialQuantity order1 < 2 ^ 32) by (vm_compute; repeat split; discriminate).
  split; [exact H|].
  destruct H as [H1 [H2 H3]].
  destruct (Fill_spec order1 4 H1 H2 H3) as [_ [_ H4]].
  apply H4. vm_compute. discriminate.
Defined.

Lemma noop_paths_unchanged_witness :
  (contains (orders_ book1) 1 = true /\ AddOrder book1 order1 = Ok (book1, Some [])) /\
  (orders_ book1 !! 9 = None /\ CancelOrder book1 9 = Ok book1) /\
  (orders_ book1 !! 9 = None /\ MatchOrder book1 (OrderModify.mk 9 100 Buy 1) = Ok (book1, Some [])) /\
  (CanMatch empty_book Buy 99 = false /\
   AddOrder empty_book (Order_new FillAndKill 3 Buy 99 5) = Ok (empty_book, Some [])).
Proof.
  destruct noop_paths_unchanged as [Ha [Hc [Hm Hf]]].
  split; [|split; [|split]].
  - split; [reflexivity|]. apply Ha. reflexivity.
  - split; [reflexivity|]. apply Hc. reflexivity.
  - split; [reflexivity|]. apply Hm. reflexivity.
  - split; [reflexivity|]. apply Hf; reflexivity.
Defined.

(** *** Lists, levels and ladders *)

Lemma same_key_refl o : same_key o o.
Proof. unfold same_key. auto 10. Qed.

Lemma same_key_trans o1 o2 o3 : same_key o1 o2 -> same_key o2 o3 -> same_key o1 o3.
Proof. unfold same_key. intros (?&?&?&?&?) (?&?&?&?&?). repeat split; congruence. Qed.

Lemma Fill_same_key o qty o' : Fill o qty = Ok o' -> same_key o o'.
Proof.
  unfold Fill. destruct (qty >? _); [discriminate|]. intros [= <-].
  unfold same_key; simpl. auto 10.
Qed.

Lemma NoDup_map_inj_in {A B} (f : A -> B) (l : list A) a b :
  NoDup (map f l) -> In a l -> In b l -> f a = f b -> a = b.
Proof.
  induction l as [|c l IH]; simpl; [contradiction|].
  intros Hnd Ha Hb Hf. apply NoDup_cons in Hnd as [Hn Hnd].
  destruct Ha as [<-|Ha], Hb as [<-|Hb]; auto.
  - exfalso. apply Hn. rewrite Hf. apply list_elem_of_In, in_map, Hb.
  - exfalso. apply Hn. rewrite <- Hf. apply list_elem_of_In, in_map, Ha.
Qed.

Lemma sublist_In {A} (l l' : list A) x : l `sublist_of` l' -> In x l -> In x l'.
Proof. induction 1; simpl; intuition. Qed.

Lemma sublist_map {A B} (f : A -> B) (l l' : list A) :
  l `sublist_of` l' -> map f l `sublist_of` map f l'.
Proof. induction 1; simpl; constructor; auto. Qed.

Lemma sublist_Forall {A} (P : A -> Prop) (l l' : list A) :
  l `sublist_of` l' -> Forall P l' -> Forall P l.
Proof. induction 1; intros HF; inversion HF; subst; auto. Qed.

Lemma sublist_StronglySorted {A} (R : A -> A -> Prop) (l l' : list A) :
  l `sublist_of` l' -> StronglySorted R l' -> StronglySorted R l.
Proof.
  induction 1 as [|x l1 l2 Hs IH|x l1 l2 Hs IH]; intros HS; inversion HS; subst; auto.
  constructor; auto. eapply sublist_Forall; eauto.
Qed.

Lemma sublist_tail_self {A} (l : list A) : tail l `sublist_of` l.
Proof. destruct l; simpl; [constructor|]. constructor. reflexivity. Qed.

Lemma sublist_trans' {A} (l1 l2 l3 : list A) :
  l1 `sublist_of` l2 -> l2 `sublist_of` l3 -> l1 `sublist_of` l3.
Proof. intros. etransitivity; eauto. Qed.

Lemma sublist_tail {A} (l l' : list A) : l `sublist_of` l' -> tail l `sublist_of` tail l'.
Proof.
  induction 1 as [|x l1 l2 Hs _|x l1 l2 Hs _]; simpl; auto.
  eapply sublist_trans'; [apply sublist_tail_self | exact Hs].
Qed.

Lemma qsub_refl q : qsub q q.
Proof.
  destruct q as [|o t]; [left; reflexivity|].
  right. exists o, o, t. split; [apply same_key_refl | split; reflexivity].
Qed.

Lemma qsub_of_sublist q' q : q' `sublist_of` q -> qsub q' q.
Proof.
  destruct q' as [|o t]; [left; reflexivity|].
  intros Hs. right. exists o, o, t. split; [apply same_key_refl | split; auto].
Qed.

Lemma qsub_trans q1 q2 q3 : qsub q1 q2 -> qsub q2 q3 -> qsub q1 q3.
Proof.
  intros [->|(o2 & o1 & t1 & Hk1 & -> & Hs1)]; [left; reflexivity|].
  intros [->|(o3 & o2' & t2 & Hk2 & -> & Hs2)].
  { apply sublist_nil_r in Hs1. discriminate. }
  right. inversion Hs1; subst.
  - exists o3, o1, t1. split; [eapply same_key_trans; eauto|]. split; [reflexivity|].
    eapply sublist_trans'; [|exact Hs2]. constructor. assumption.
  - exists o2, o1, t1. split; [assumption|]. split; [reflexivity|].
    eapply sublist_trans'; [exact H1|]. eapply sublist_trans'; [|exact Hs2].
    constructor. reflexivity.
Qed.

Lemma qsub_length q' q : qsub q' q -> (length q' <= length q)%nat.
Proof.
  intros [->|(o & o' & t & _ & -> & Hs)]; simpl; [lia|].
  apply sublist_length in Hs. simpl in Hs. lia.
Qed.

Lemma qsub_ids q' q : qsub q' q -> map GetOrderId q' `sublist_of` map GetOrderId q.
Proof.
  intros [->|(o & o' & t & Hk & -> & Hs)]; [apply sublist_nil_l|].
  apply sublist_map with (f := GetOrderId) in Hs. simpl in *.
  destruct Hk as (_ & Hid & _). rewrite <- Hid. exact Hs.
Qed.

Lemma qsub_tail q' q : qsub q' q -> tail q' `sublist_of` tail q.
Proof.
  intros [->|(o & o' & t & _ & -> & Hs)]; [apply sublist_nil_l|].
  apply sublist_tail in Hs. exact Hs.
Qed.

Lemma qsub_Forall (P : Order -> Prop) q' q :
  (forall o o', same_key o o' -> P o -> P o') -> qsub q' q -> Forall P q -> Forall P q'.
Proof.
  intros HP [->|(o & o' & t & Hk & -> & Hs)] HF; [constructor|].
  apply (sublist_Forall P) in Hs; [|exact HF]. inversion Hs; subst.
  constructor; eauto.
Qed.

Lemma qsub_In q' q o' : qsub q' q -> In o' q' -> exists o, In o q /\ same_key o o'.
Proof.
  intros [->|(o & o'' & t & Hk & -> & Hs)]; [contradiction|].
  intros [<-|Hin].
  - exists o. split; [eapply sublist_In; [exact Hs | left; reflexivity] | exact Hk].
  - exists o'. split; [eapply sublist_In; [exact Hs | right; exact Hin] | apply same_key_refl].
Qed.

Lemma qsub_level_ok s h k q q' :
  level_ok s h (k, q) -> qsub q' q -> q' <> [] -> level_ok s h (k, q').
Proof.
  intros (Hne & Hf & Hu & Hs) Hq Hne'. simpl in *. split; [exact Hne'|]. split; [|split].
  - eapply qsub_Forall; [|exact Hq|exact Hf].
    intros o o' (_ & Hi & Hsd & Hp & _) (H1 & H2 & H3). rewrite <- Hsd, <- Hp, <- Hi. auto.
  - eapply sublist_Forall; [apply qsub_tail; exact Hq | exact Hu].
  - eapply sublist_StronglySorted; [apply qsub_ids; exact Hq | exact Hs].
Qed.

Lemma qsub_no_fak q' q : qsub q' q -> no_fak q -> no_fak q'.
Proof.
  intros Hq. apply qsub_Forall; [|exact Hq].
  intros o o' (Ht & _) H. unfold is_fak in *. rewrite <- Ht. exact H.
Qed.

Lemma qsub_no_fak_tail q' q : qsub q' q -> no_fak (tail q) -> no_fak (tail q').
Proof. intros Hq. apply sublist_Forall, qsub_tail, Hq. Qed.

Lemma ladder_orders_cons k q l : ladder_orders ((k, q) :: l) = q ++ ladder_orders l.
Proof. reflexivity. Qed.

Lemma ladder_orders_app l1 l2 : ladder_orders (l1 ++ l2) = ladder_orders l1 ++ ladder_orders l2.
Proof. unfold ladder_orders. by rewrite map_app, concat_app. Qed.

Lemma ladder_sub_refl l : ladder_sub l l.
Proof. induction l as [|[k q] l IH]; [constructor | apply ladder_sub_keep; auto using qsub_refl]. Qed.

Lemma ladder_sub_app l1 l' l : ladder_sub l' l -> ladder_sub (l1 ++ l') (l1 ++ l).
Proof. induction l1 as [|[k q] l1 IH]; simpl; auto. intros H. apply ladder_sub_keep; auto using qsub_refl. Qed.

Lemma ladder_sub_In l' l k q' : ladder_sub l' l -> In (k, q') l' -> exists q, In (k, q) l.
Proof.
  induction 1 as [|k0 q0 l' l Hs IH|k0 q0 q0' l' l Hq Hs IH]; simpl; [contradiction| |].
  - intros Hin. destruct (IH Hin) as [q Hq]. eauto.
  - intros [[= <- <-]|Hin]; [eauto|]. destruct (IH Hin) as [q Hq1]. eauto.
Qed.

Lemma ladder_sub_sorted (r : Z -> Z -> Prop) l' l :
  ladder_sub l' l ->
  StronglySorted (fun a b => r (fst a) (fst b)) l ->
  StronglySorted (fun a b => r (fst a) (fst b)) l'.
Proof.
  induction 1 as [|k q l' l Hs IH|k q q' l' l Hq Hs IH]; intros HS; inversion HS; subst; auto.
  constructor; auto. apply List.Forall_forall. intros [k' q1] Hin.
  destruct (ladder_sub_In _ _ _ _ Hs Hin) as [q2 Hin2].
  rewrite List.Forall_forall in H2. exact (H2 _ Hin2).
Qed.

Lemma ladder_sub_levels s h l' l :
  ladder_sub l' l -> Forall (level_ok s h) l ->
  Forall (fun lv => snd lv <> []) l' -> Forall (level_ok s h) l'.
Proof.
  induction 1 as [|k q l' l Hs IH|k q q' l' l Hq Hs IH]; intros HF Hne; auto.
  - inversion HF; subst. auto.
  - inversion HF; subst. inversion Hne; subst. constructor; auto.
    eapply qsub_level_ok; eauto.
Qed.

Lemma ladder_sub_ids l' l :
  ladder_sub l' l ->
  map GetOrderId (ladder_orders l') `sublist_of` map GetOrderId (ladder_orders l).
Proof.
  induction 1 as [|k q l' l Hs IH|k q q' l' l Hq Hs IH]; rewrite ?ladder_orders_cons, ?map_app.
  - constructor.
  - apply sublist_inserts_l. exact IH.
  - apply sublist_app; [apply qsub_ids|]; assumption.
Qed.

Lemma ladder_sub_length l' l :
  ladder_sub l' l -> (length (ladder_orders l') <= length (ladder_orders l))%nat.
Proof.
  intros Hs. apply ladder_sub_ids, sublist_length in Hs. rewrite !length_map in Hs. exact Hs.
Qed.

Lemma ladder_sub_orders l' l o' :
  ladder_sub l' l -> In o' (ladder_orders l') -> exists o, In o (ladder_orders l) /\ same_key o o'.
Proof.
  induction 1 as [|k q l' l Hs IH|k q q' l' l Hq Hs IH]; rewrite ?ladder_orders_cons; simpl.
  - contradiction.
  - intros Hin. destruct (IH Hin) as (o & Ho & Hk). exists o. split; [apply in_or_app; auto|auto].
  - intros [Hin|Hin]%in_app_or.
    + destruct (qsub_In _ _ _ Hq Hin) as (o & Ho & Hk). exists o. split; [apply in_or_app|]; auto.
    + destruct (IH Hin) as (o & Ho & Hk). exists o. split; [apply in_or_app|]; auto.
Qed.

Lemma ladder_sub_no_fak l' l : ladder_sub l' l -> no_fak (ladder_orders l) -> no_fak (ladder_orders l').
Proof.
  intros Hs HF. unfold no_fak in *. rewrite List.Forall_forall in *. intros o' Hin.
  destruct (ladder_sub_orders _ _ _ Hs Hin) as (o & Ho & Ht & _).
  unfold is_fak. rewrite <- Ht. apply HF, Ho.
Qed.

Lemma no_fak_app l1 l2 : no_fak (l1 ++ l2) <-> no_fak l1 /\ no_fak l2.
Proof. apply Forall_app. Qed.

Lemma no_fak_tail q : no_fak q -> no_fak (tail q).
Proof. destruct q; simpl; auto. intros H. inversion H; auto. Qed.

Lemma no_fak_fak_front l : no_fak (ladder_orders l) -> fak_front l.
Proof.
  destruct l as [|[k q] l]; simpl; auto. rewrite ladder_orders_cons, no_fak_app.
  intros [Hq Hl]. split; auto using no_fak_tail.
Qed.

Lemma ladder_sub_fak_front l' l : ladder_sub l' l -> fak_front l -> fak_front l'.
Proof.
  intros Hs. destruct Hs as [|k q l' l Hs|k q q' l' l Hq Hs]; simpl; auto.
  - intros [_ Hl]. apply no_fak_fak_front. eapply ladder_sub_no_fak; eauto.
  - intros [Ht Hl]. split; [eapply qsub_no_fak_tail|eapply ladder_sub_no_fak]; eauto.
Qed.

Lemma best_price_In l k : best_price l = Some k -> exists q, In (k, q) l.
Proof. destruct l as [|[k' q] l]; simpl; [discriminate|]. intros [= ->]. eauto. Qed.

Lemma ladder_sub_best (r : Z -> Z -> Prop) l' l k' :
  StronglySorted (fun a b => r (fst a) (fst b)) l -> ladder_sub l' l ->
  best_price l' = Some k' -> exists k, best_price l = Some k /\ (k' = k \/ r k k').
Proof.
  intros HS Hs Hb. destruct (best_price_In _ _ Hb) as [q' Hin'].
  destruct (ladder_sub_In _ _ _ _ Hs Hin') as [q Hin].
  destruct l as [|[k q0] l]; [contradiction|]. exists k. split; [reflexivity|].
  destruct Hin as [[= -> ->]|Hin]; [left; reflexivity|right].
  inversion HS; subst. rewrite List.Forall_forall in H2. exact (H2 _ Hin).
Qed.

Lemma not_crossed_sub ob ob' :
  bids_sorted (bids_ ob) -> asks_sorted (asks_ ob) ->
  ladder_sub (bids_ ob') (bids_ ob) -> ladder_sub (asks_ ob') (asks_ ob) ->
  not_crossed ob -> not_crossed ob'.
Proof.
  unfold not_crossed, bestBidPrice, bestAskPrice. intros Hbs Has Hb Ha Hnc.
  destruct (best_price (bids_ ob')) as [b'|] eqn:Eb; [|exact I].
  destruct (best_price (asks_ ob')) as [a'|] eqn:Ea; [|exact I].
  destruct (ladder_sub_best (fun x y => y < x) _ _ _ Hbs Hb Eb) as (b & Eb0 & Hb').
  destruct (ladder_sub_best (fun x y => x < y) _ _ _ Has Ha Ea) as (a & Ea0 & Ha').
  rewrite Eb0, Ea0 in Hnc. lia.
Qed.

(** *** The order index *)

Lemma NoDup_middle_notin {A} (l1 l2 : list A) x : NoDup (l1 ++ x :: l2) -> ~ In x (l1 ++ l2).
Proof.
  intros Hnd Hin. apply NoDup_app in Hnd as (_ & Hdis & Hnd2).
  apply NoDup_cons in Hnd2 as [Hx _].
  apply in_app_or in Hin as [Hin|Hin].
  - apply (Hdis x); [apply list_elem_of_In, Hin | left].
  - apply Hx, list_elem_of_In, Hin.
Qed.

Lemma index_ok_same_key_app idx l1 l2 o o' :
  index_ok idx (l1 ++ o :: l2) -> same_key o o' -> index_ok idx (l1 ++ o' :: l2).
Proof.
  intros H (_ & Hid & Hs & Hp & _) x. specialize (H x). destruct (idx !! x) as [e|].
  - destruct H as (o0 & Hin & Hx & Hse & Hpe).
    apply in_app_or in Hin as [Hin|[<-|Hin]].
    + exists o0. split; [apply in_or_app; auto|auto].
    + exists o'. split; [apply in_or_app; right; left; reflexivity|]. rewrite <- Hid, <- Hs, <- Hp. auto.
    + exists o0. split; [apply in_or_app; right; right; exact Hin|auto].
  - intros o0 Hin. apply in_app_or in Hin as [Hin|[<-|Hin]].
    + apply H, in_or_app. auto.
    + rewrite <- Hid. apply H, in_or_app. right. left. reflexivity.
    + apply H, in_or_app. right. right. exact Hin.
Qed.

Lemma index_ok_remove idx l1 l2 o :
  NoDup (map GetOrderId (l1 ++ o :: l2)) -> index_ok idx (l1 ++ o :: l2) ->
  index_ok (delete (GetOrderId o) idx) (l1 ++ l2).
Proof.
  intros Hnd H x. rewrite map_app in Hnd. simpl in Hnd.
  apply NoDup_middle_notin in Hnd. rewrite <- map_app in Hnd.
  destruct (decide (GetOrderId o = x)) as [<-|Hne].
  - rewrite lookup_delete_eq. intros o0 Hin Hid. apply Hnd. rewrite <- Hid. apply in_map, Hin.
  - rewrite lookup_delete_ne by exact Hne. specialize (H x). destruct (idx !! x) as [e|].
    + destruct H as (o0 & Hin & Hx & Hse & Hpe). exists o0. split; [|auto].
      apply in_app_or in Hin as [Hin|[<-|Hin]]; [apply in_or_app; auto|congruence|apply in_or_app; auto].
    + intros o0 Hin. apply H. apply in_app_or in Hin as [Hin|Hin]; apply in_or_app; [left|right; right]; exact Hin.
Qed.

Lemma index_ok_insert idx l o :
  index_ok idx l -> index_ok (<[GetOrderId o := mkEntry o]> idx) (l ++ [o]).
Proof.
  intros H x. destruct (decide (GetOrderId o = x)) as [<-|Hne].
  - rewrite lookup_insert_eq. exists o. simpl. split; [apply in_or_app; right; left; reflexivity|auto].
  - rewrite lookup_insert_ne by exact Hne. specialize (H x). destruct (idx !! x) as [e|].
    + destruct H as (o0 & Hin & Hx). exists o0. split; [apply in_or_app; auto|exact Hx].
    + intros o0 Hin. apply in_app_or in Hin as [Hin|[<-|[]]]; [apply H, Hin|exact Hne].
Qed.

Lemma index_ok_In_iff idx l l' :
  (forall o, In o l <-> In o l') -> index_ok idx l -> index_ok idx l'.
Proof.
  intros Hiff H x. specialize (H x). destruct (idx !! x) as [e|].
  - destruct H as (o & Hin & Hx). exists o. split; [apply Hiff, Hin|exact Hx].
  - intros o Hin. apply H, Hiff, Hin.
Qed.

(** *** The inner matching loop *)

Lemma u32_sub_diag x : u32_sub x x = 0.
Proof. unfold u32_sub. rewrite Z.sub_diag. reflexivity. Qed.

Lemma queue_step (L1 L2 : list Order) (o o' : Order) (t : list Order) idx q idx' :
  same_key o o' ->
  NoDup (map GetOrderId (L1 ++ (o :: t) ++ L2)) ->
  index_ok idx (L1 ++ (o :: t) ++ L2) ->
  (if IsFilled o' then (t, delete (GetOrderId o') idx) else (o' :: t, idx)) = (q, idx') ->
  qsub q (o :: t) /\ (length q <= S (length t))%nat /\
  (IsFilled o' = true -> length q = length t) /\
  NoDup (map GetOrderId (L1 ++ q ++ L2)) /\ index_ok idx' (L1 ++ q ++ L2).
Proof.
  intros Hk Hnd Hidx. pose proof Hk as (_ & Hid & _).
  destruct (IsFilled o'); intros [= <- <-].
  - split; [apply qsub_of_sublist; constructor; reflexivity|].
    split; [lia|]. split; [reflexivity|]. split.
    + eapply sublist_NoDup; [exact Hnd|]. rewrite !map_app.
      apply sublist_app; [reflexivity|]. simpl. constructor. reflexivity.
    + rewrite <- Hid. apply index_ok_remove; [exact Hnd|exact Hidx].
  - split; [right; exists o, o', t; split; [exact Hk|split; reflexivity]|].
    split; [simpl; lia|]. split; [discriminate|]. split.
    + rewrite !map_app in *. simpl in *. rewrite <- Hid. exact Hnd.
    + apply index_ok_same_key_app with (o := o); [exact Hidx|exact Hk].
Qed.

Lemma MatchLevels_inv fuel bids asks orders trades bids' asks' orders' trades' R1 R2 :
  MatchLevels fuel bids asks orders trades = Ok (bids', asks', orders', trades') ->
  NoDup (map GetOrderId (bids ++ R1 ++ asks ++ R2)) ->
  index_ok orders (bids ++ R1 ++ asks ++ R2) ->
  qsub bids' bids /\ qsub asks' asks /\
  index_ok orders' (bids' ++ R1 ++ asks' ++ R2) /\
  (fuel <> 0%nat -> bids <> [] -> asks <> [] ->
   (length bids' + length asks' < length bids + length asks)%nat).
Proof.
  revert bids asks orders trades.
  induction fuel as [|fuel IH]; intros bids asks orders trades; simpl.
  { intros [= <- <- <- <-] _ Hidx. split; [apply qsub_refl|]. split; [apply qsub_refl|].
    split; [exact Hidx|]. intros []; reflexivity. }
  destruct bids as [|bid bs].
  { intros [= <- <- <- <-] _ Hidx. split; [apply qsub_refl|]. split; [apply qsub_refl|].
    split; [exact Hidx|]. intros _ []; reflexivity. }
  destruct asks as [|ask as_].
  { intros [= <- <- <- <-] _ Hidx. split; [apply qsub_refl|]. split; [apply qsub_refl|].
    split; [exact Hidx|]. intros _ _ []; reflexivity. }
  rewrite Fill_min_l, Fill_min_r. simpl bind. cbv zeta.
  set (q := Z.min (GetRemainingQuantity bid) (GetRemainingQuantity ask)).
  set (bid' := mkOrder _ _ _ _ _ (u32_sub (remainingQuantity_ bid) q)).
  set (ask' := mkOrder _ _ _ _ _ (u32_sub (remainingQuantity_ ask) q)).
  assert (Hkb : same_key bid bid') by (unfold same_key; auto 10).
  assert (Hka : same_key ask ask') by (unfold same_key; auto 10).
  assert (Hfill : IsFilled bid' = true \/ IsFilled ask' = true).
  { unfold IsFilled, bid', ask', q, GetRemainingQuantity; simpl.
    destruct (Z.le_ge_cases (remainingQuantity_ bid) (remainingQuantity_ ask)) as [Hle|Hle].
    - left. rewrite Z.min_l by exact Hle. rewrite u32_sub_diag. reflexivity.
    - right. rewrite Z.min_r by lia. rewrite u32_sub_diag. reflexivity. }
  intros Hrun Hnd Hidx. revert Hrun.
  destruct (if IsFilled bid' then (bs, delete (orderId_ bid) orders) else (bid' :: bs, orders))
    as [b1 idx1] eqn:E1. cbv beta iota.
  destruct (queue_step [] (R1 ++ ask :: as_ ++ R2) bid bid' bs orders b1 idx1 Hkb)
    as (Hq1 & Hl1 & Hf1 & Hnd1 & Hidx1); [exact Hnd|exact Hidx|exact E1|].
  destruct (if IsFilled ask' then (as_, delete (orderId_ ask) idx1) else (ask' :: as_, idx1))
    as [a1 idx2] eqn:E2. cbv beta iota. intros Hrun.
  rewrite app_nil_l, app_assoc in Hnd1, Hidx1.
  destruct (queue_step (b1 ++ R1) R2 ask ask' as_ idx1 a1 idx2 Hka)
    as (Hq2 & Hl2 & Hf2 & Hnd2 & Hidx2); [exact Hnd1|exact Hidx1|exact E2|].
  rewrite <- app_assoc in Hnd2, Hidx2.
  destruct (IH b1 a1 idx2 _ Hrun Hnd2 Hidx2) as (Hq3 & Hq4 & Hidx3 & _).
  split; [eapply qsub_trans; eauto|]. split; [eapply qsub_trans; eauto|].
  split; [exact Hidx3|]. intros _ _ _.
  apply qsub_length in Hq3. apply qsub_length in Hq4. simpl.
  destruct Hfill as [Hf|Hf]; [apply Hf1 in Hf|apply Hf2 in Hf]; lia.
Qed.

(** *** The outer matching loop *)

Lemma ladder_sub_trans l1 l2 l3 : ladder_sub l1 l2 -> ladder_sub l2 l3 -> ladder_sub l1 l3.
Proof.
  intros H12 H23. revert l1 H12.
  induction H23 as [|k q l2 l3 Hs IH|k q q' l2 l3 Hq Hs IH]; intros l1 H12.
  - inversion H12. constructor.
  - apply ladder_sub_drop, IH, H12.
  - inversion H12 as [|k0 q0 l1' l2' Hs'|k0 q0 q0' l1' l2' Hq' Hs']; subst.
    + apply ladder_sub_drop, IH, Hs'.
    + apply ladder_sub_keep; [eapply qsub_trans; eauto|auto].
Qed.

Lemma level_ok_nonempty s h l : Forall (level_ok s h) l -> Forall (fun lv => snd lv <> []) l.
Proof. intros H. eapply Forall_impl; [exact H|]. intros lv [H0 _]. exact H0. Qed.

(** A book whose ladders shrink as in [ladder_sub], with non-empty
    levels and a consistent index, keeps the invariant. *)
Lemma book_inv_sub ob ob' h :
  book_inv ob h ->
  ladder_sub (bids_ ob') (bids_ ob) -> ladder_sub (asks_ ob') (asks_ ob) ->
  Forall (fun lv => snd lv <> []) (bids_ ob') -> Forall (fun lv => snd lv <> []) (asks_ ob') ->
  index_ok (orders_ ob') (book_orders ob') -> book_inv ob' h.
Proof.
  intros [Hbs Has Hbl Hal Hnd Hidx] Hb Ha Hbn Han Hidx'. split.
  - exact (ladder_sub_sorted (fun x y => y < x) _ _ Hb Hbs).
  - exact (ladder_sub_sorted (fun x y => x < y) _ _ Ha Has).
  - eapply ladder_sub_levels; eauto.
  - eapply ladder_sub_levels; eauto.
  - eapply sublist_NoDup; [exact Hnd|]. unfold book_orders. rewrite !map_app.
    apply sublist_app; apply ladder_sub_ids; assumption.
  - exact Hidx'.
Qed.

(** Writing a level back after matching: [match q with [] => l | _ => (k, q) :: l end]. *)
Lemma put_level_orders k (q : OrderPointers) (l : Ladder) :
  ladder_orders (match q with [] => l | _ => (k, q) :: l end) = q ++ ladder_orders l.
Proof. destruct q; reflexivity. Qed.

Lemma put_level_sub k q (q' : OrderPointers) (l : Ladder) : qsub q' q ->
  ladder_sub (match q' with [] => l | _ => (k, q') :: l end) ((k, q) :: l).
Proof.
  intros Hq. destruct q' as [|o q'].
  - apply ladder_sub_drop, ladder_sub_refl.
  - apply ladder_sub_keep; [exact Hq|apply ladder_sub_refl].
Qed.

Lemma put_level_nonempty k (q q' : OrderPointers) (l : Ladder) :
  Forall (fun lv => snd lv <> []) ((k, q) :: l) ->
  Forall (fun lv => snd lv <> []) (match q' with [] => l | _ => (k, q') :: l end).
Proof.
  intros H. inversion H; subst. destruct q'; [assumption|].
  constructor; [discriminate|assumption].
Qed.

Lemma MatchLoop_inv fuel ob trades ob' trades' h :
  book_inv ob h -> MatchLoop fuel ob trades = Ok (ob', trades') ->
  book_inv ob' h /\ ladder_sub (bids_ ob') (bids_ ob) /\ ladder_sub (asks_ ob') (asks_ ob) /\
  ((length (book_orders ob) < fuel)%nat -> not_crossed ob').
Proof.
  revert ob trades. induction fuel as [|fuel IH]; intros ob trades Hinv; simpl.
  { intros [= <- <-]. split; [exact Hinv|]. split; [apply ladder_sub_refl|].
    split; [apply ladder_sub_refl|lia]. }
  pose proof Hinv as [Hbs Has Hbl Hal Hnd Hidx].
  destruct (bids_ ob) as [|[bidPrice bids] bidLevels] eqn:Eb.
  { intros [= <- <-]. rewrite Eb. split; [exact Hinv|]. split; [constructor|].
    split; [apply ladder_sub_refl|]. intros _. unfold not_crossed, bestBidPrice. rewrite Eb. exact I. }
  destruct (asks_ ob) as [|[askPrice asks] askLevels] eqn:Ea.
  { intros [= <- <-]. rewrite Eb, Ea. split; [exact Hinv|]. split; [apply ladder_sub_refl|].
    split; [constructor|]. intros _. unfold not_crossed, bestBidPrice, bestAskPrice.
    rewrite Eb, Ea. exact I. }
  destruct (bidPrice <? askPrice) eqn:Ec.
  { intros [= <- <-]. rewrite Eb, Ea. split; [exact Hinv|]. split; [apply ladder_sub_refl|].
    split; [apply ladder_sub_refl|]. intros _. unfold not_crossed, bestBidPrice, bestAskPrice.
    rewrite Eb, Ea. simpl. apply Z.ltb_lt, Ec. }
  destruct (MatchLevels (length bids + length asks) bids asks (orders_ ob) trades)
    as [[[[bids' asks'] orders'] tr1]|e] eqn:Em; simpl; [|discriminate].
  intros Hrun.
  assert (Hbook : book_orders ob =
    bids ++ ladder_orders bidLevels ++ asks ++ ladder_orders askLevels).
  { unfold book_orders. rewrite Eb, Ea, !ladder_orders_cons, <- !app_assoc. reflexivity. }
  rewrite Hbook in Hnd, Hidx.
  destruct (MatchLevels_inv _ _ _ _ _ _ _ _ _ _ _ Em Hnd Hidx) as (Hqb & Hqa & Hidx1 & Hprog).
  set (ob1 := {| bids_ := match bids' with [] => bidLevels | _ => (bidPrice, bids') :: bidLevels end;
                 asks_ := match asks' with [] => askLevels | _ => (askPrice, asks') :: askLevels end;
                 orders_ := orders' |}) in Hrun.
  assert (Hb1 : ladder_sub (bids_ ob1) (bids_ ob)) by (rewrite Eb; apply put_level_sub, Hqb).
  assert (Ha1 : ladder_sub (asks_ ob1) (asks_ ob)) by (rewrite Ea; apply put_level_sub, Hqa).
  assert (Hbook1 : book_orders ob1 =
    bids' ++ ladder_orders bidLevels ++ asks' ++ ladder_orders askLevels).
  { unfold book_orders. simpl. rewrite !put_level_orders, <- !app_assoc. reflexivity. }
  assert (Hinv1 : book_inv ob1 h).
  { apply (book_inv_sub ob); [exact Hinv|exact Hb1|exact Ha1| | |].
    - apply put_level_nonempty with (q := bids). eapply level_ok_nonempty, Hbl.
    - apply put_level_nonempty with (q := asks). eapply level_ok_nonempty, Hal.
    - rewrite Hbook1. exact Hidx1. }
  destruct (IH ob1 tr1 Hinv1 Hrun) as (Hinv' & Hb' & Ha' & Hnc).
  split; [exact Hinv'|]. split; [rewrite <- Eb; eapply ladder_sub_trans; eauto|].
  split; [rewrite <- Ea; eapply ladder_sub_trans; eauto|].
  intros Hlen. apply Hnc. rewrite Hbook1. rewrite Hbook in Hlen. rewrite !length_app in *.
  assert (bids <> []) by (inversion Hbl as [|? ? [? _]]; assumption).
  assert (asks <> []) by (inversion Hal as [|? ? [? _]]; assumption).
  assert (length bids + length asks <> 0)%nat by (destruct bids; [congruence|simpl; lia]).
  specialize (Hprog ltac:(assumption) ltac:(assumption) ltac:(assumption)). lia.
Qed.

(** *** Cancelling a resting order *)

Lemma ladder_locate s h l o :
  Forall (level_ok s h) l -> In o (ladder_orders l) ->
  GetSide o = s /\ exists l1 q1 q2 l2, l = l1 ++ (GetPrice o, q1 ++ o :: q2) :: l2.
Proof.
  induction l as [|[k q] l IH]; intros HF Hin; [simpl in Hin; contradiction|].
  inversion HF as [|? ? Hlv HF']; subst.
  rewrite ladder_orders_cons in Hin. apply in_app_or in Hin as [Hin|Hin].
  - destruct Hlv as (_ & Hf & _). rewrite List.Forall_forall in Hf.
    destruct (Hf o Hin) as (Hs & Hp & _). simpl in Hp. split; [exact Hs|].
    destruct (in_split _ _ Hin) as (q1 & q2 & ->). exists [], q1, q2, l. rewrite Hp. reflexivity.
  - destruct (IH HF' Hin) as (Hs & l1 & q1 & q2 & l2 & ->). split; [exact Hs|].
    exists ((k, q) :: l1), q1, q2, l2. reflexivity.
Qed.

Lemma sorted_prefix_keys (r : Z -> Z -> Prop) (l1 : Ladder) k q l2 :
  (forall z, ~ r z z) ->
  StronglySorted (fun a b : Price * OrderPointers => r (fst a) (fst b)) (l1 ++ (k, q) :: l2) ->
  Forall (fun lv => fst lv <> k) l1.
Proof.
  intros Hirr. induction l1 as [|[k0 q0] l1 IH]; simpl; intros HS; [constructor|].
  inversion HS as [|? ? HS' HF]; subst. constructor; [|apply IH, HS'].
  simpl. intros Heq. apply (Hirr k). rewrite List.Forall_forall in HF.
  specialize (HF (k, q) ltac:(apply in_or_app; right; left; reflexivity)).
  simpl in HF. rewrite Heq in HF. exact HF.
Qed.

Lemma level_at_split (l1 : Ladder) k q l2 :
  Forall (fun lv => fst lv <> k) l1 -> level_at k (l1 ++ (k, q) :: l2) = Some q.
Proof.
  induction l1 as [|[k0 q0] l1 IH]; intros HF; simpl; [rewrite Z.eqb_refl; reflexivity|].
  inversion HF as [|? ? Hk HF']; subst. simpl in Hk. apply Z.eqb_neq in Hk. rewrite Hk. auto.
Qed.

Lemma level_set_split (l1 : Ladder) k q q' l2 :
  Forall (fun lv => fst lv <> k) l1 -> level_set k q' (l1 ++ (k, q) :: l2) = l1 ++ (k, q') :: l2.
Proof.
  induction l1 as [|[k0 q0] l1 IH]; intros HF; simpl; [rewrite Z.eqb_refl; reflexivity|].
  inversion HF as [|? ? Hk HF']; subst. simpl in Hk. apply Z.eqb_neq in Hk. rewrite Hk.
  f_equal. auto.
Qed.

Lemma level_erase_split (l1 : Ladder) k q l2 :
  Forall (fun lv => fst lv <> k) l1 -> level_erase k (l1 ++ (k, q) :: l2) = l1 ++ l2.
Proof.
  induction l1 as [|[k0 q0] l1 IH]; intros HF; simpl; [rewrite Z.eqb_refl; reflexivity|].
  inversion HF as [|? ? Hk HF']; subst. simpl in Hk. apply Z.eqb_neq in Hk. rewrite Hk.
  f_equal. auto.
Qed.

Lemma erase_order_split x q1 o q2 :
  GetOrderId o = x -> ~ In x (map GetOrderId q1) -> erase_order x (q1 ++ o :: q2) = q1 ++ q2.
Proof.
  intros Ho. induction q1 as [|o1 q1 IH]; simpl; intros Hn.
  - rewrite Ho, Z.eqb_refl. reflexivity.
  - destruct (GetOrderId o1 =? x) eqn:E.
    + apply Z.eqb_eq in E. exfalso. apply Hn. left. exact E.
    + f_equal. apply IH. intros H. apply Hn. right. exact H.
Qed.

Lemma erase_from_level_split (l1 : Ladder) k q1 o q2 l2 :
  Forall (fun lv => fst lv <> k) l1 -> ~ In (GetOrderId o) (map GetOrderId q1) ->
  erase_from_level (l1 ++ (k, q1 ++ o :: q2) :: l2) k (q1 ++ o :: q2) (GetOrderId o) =
  l1 ++ match q1 ++ q2 with [] => l2 | _ => (k, q1 ++ q2) :: l2 end.
Proof.
  intros Hk Hn. unfold erase_from_level.
  rewrite (erase_order_split _ _ _ _ eq_refl Hn), level_set_split by exact Hk.
  destruct (q1 ++ q2); [apply level_erase_split, Hk|reflexivity].
Qed.

(** Cancelling an order of a well-formed ladder: the level is found, the
    order leaves it, and the level goes when it becomes empty. *)
Lemma cancel_in_ladder (r : Z -> Z -> Prop) s h (l : Ladder) o :
  (forall z, ~ r z z) -> StronglySorted (fun a b : Price * OrderPointers => r (fst a) (fst b)) l ->
  Forall (level_ok s h) l -> NoDup (map GetOrderId (ladder_orders l)) ->
  In o (ladder_orders l) ->
  GetSide o = s /\ exists q, level_at (GetPrice o) l = Some q /\
    ladder_sub (erase_from_level l (GetPrice o) q (GetOrderId o)) l /\
    Forall (fun lv => snd lv <> []) (erase_from_level l (GetPrice o) q (GetOrderId o)) /\
    exists A B, ladder_orders l = A ++ o :: B /\
                ladder_orders (erase_from_level l (GetPrice o) q (GetOrderId o)) = A ++ B.
Proof.
  intros Hirr HS HF Hnd Hin.
  destruct (ladder_locate _ _ _ _ HF Hin) as (Hs & l1 & q1 & q2 & l2 & El). split; [exact Hs|].
  subst l. pose proof (sorted_prefix_keys _ _ _ _ _ Hirr HS) as Hk.
  exists (q1 ++ o :: q2). split; [apply level_at_split, Hk|].
  assert (Hbook : ladder_orders (l1 ++ (GetPrice o, q1 ++ o :: q2) :: l2) =
                  (ladder_orders l1 ++ q1) ++ o :: (q2 ++ ladder_orders l2)).
  { rewrite ladder_orders_app, ladder_orders_cons, <- !app_assoc. reflexivity. }
  assert (Hn : ~ In (GetOrderId o) (map GetOrderId q1)).
  { rewrite Hbook, map_app in Hnd. simpl in Hnd. apply NoDup_middle_notin in Hnd.
    intros Hi. apply Hnd. apply in_or_app. left. rewrite map_app.
    apply in_or_app. right. exact Hi. }
  rewrite erase_from_level_split by assumption. split; [|split].
  - apply ladder_sub_app, put_level_sub, qsub_of_sublist, sublist_app; [reflexivity|].
    constructor. reflexivity.
  - apply level_ok_nonempty in HF. apply Forall_app in HF as [HF1 HF2].
    apply Forall_app. split; [exact HF1|]. eapply put_level_nonempty, HF2.
  - exists (ladder_orders l1 ++ q1), (q2 ++ ladder_orders l2). split; [exact Hbook|].
    rewrite ladder_orders_app, put_level_orders, <- !app_assoc. reflexivity.
Qed.

Lemma book_nodup_split ob :
  NoDup (map GetOrderId (book_orders ob)) ->
  NoDup (map GetOrderId (ladder_orders (bids_ ob))) /\ NoDup (map GetOrderId (ladder_orders (asks_ ob))).
Proof. unfold book_orders. rewrite map_app. intros H. apply NoDup_app in H as (H1 & _ & H2). auto. Qed.

Lemma book_index_absent ob h x :
  book_inv ob h -> orders_ ob !! x = None -> forall o, In o (book_orders ob) -> GetOrderId o <> x.
Proof. intros Hinv Hx. pose proof (inv_index _ _ Hinv x) as H. rewrite Hx in H. exact H. Qed.

Lemma CancelOrder_inv ob h x ob' :
  book_inv ob h -> CancelOrder ob x = Ok ob' ->
  book_inv ob' h /\ ladder_sub (bids_ ob') (bids_ ob) /\ ladder_sub (asks_ ob') (asks_ ob) /\
  (forall o, In o (book_orders ob') -> GetOrderId o <> x).
Proof.
  intros Hinv. pose proof Hinv as [Hbs Has Hbl Hal Hnd Hidx].
  destruct (book_nodup_split _ Hnd) as [Hndb Hnda].
  unfold CancelOrder. destruct (orders_ ob !! x) as [e|] eqn:Ex.
  2:{ intros [= <-]. split; [exact Hinv|]. split; [apply ladder_sub_refl|].
      split; [apply ladder_sub_refl|]. eapply book_index_absent; eauto. }
  pose proof (Hidx x) as Hx. rewrite Ex in Hx. destruct Hx as (o & Hin & <- & Hs & Hp).
  cbv zeta. rewrite <- Hs, <- Hp.
  pose proof Hin as Hin0. unfold book_orders in Hin. apply in_app_or in Hin as [Hin|Hin].
  - destruct (cancel_in_ladder (fun x y => y < x) _ _ _ _ ltac:(intros z; cbv beta; lia) Hbs Hbl Hndb Hin)
      as (Hside & q & Hat & Hsub & Hne & A & B & Eo & Eo').
    rewrite Hside, Hat. intros [= <-].
    assert (Hbook : book_orders ob = A ++ o :: (B ++ ladder_orders (asks_ ob)))
      by (unfold book_orders; rewrite Eo, <- app_assoc; reflexivity).
    rewrite Hbook in Hnd, Hidx. pose proof (index_ok_remove _ _ _ _ Hnd Hidx) as Hidx'.
    match goal with |- book_inv ?ob1 _ /\ _ => assert (Hinv' : book_inv ob1 h) end.
    { apply (book_inv_sub ob); simpl; [exact Hinv|exact Hsub|apply ladder_sub_refl|exact Hne| |].
      - eapply level_ok_nonempty, Hal.
      - unfold book_orders; simpl. rewrite Eo', <- app_assoc. exact Hidx'. }
    split; [exact Hinv'|]. split; [exact Hsub|]. split; [apply ladder_sub_refl|].
    eapply book_index_absent; [exact Hinv'|]. simpl. apply lookup_delete_eq.
  - destruct (cancel_in_ladder (fun x y => x < y) _ _ _ _ ltac:(intros z; cbv beta; lia) Has Hal Hnda Hin)
      as (Hside & q & Hat & Hsub & Hne & A & B & Eo & Eo').
    rewrite Hside, Hat. intros [= <-].
    assert (Hbook : book_orders ob = (ladder_orders (bids_ ob) ++ A) ++ o :: B)
      by (unfold book_orders; rewrite Eo, <- app_assoc; reflexivity).
    rewrite Hbook in Hnd, Hidx. pose proof (index_ok_remove _ _ _ _ Hnd Hidx) as Hidx'.
    match goal with |- book_inv ?ob1 _ /\ _ => assert (Hinv' : book_inv ob1 h) end.
    { apply (book_inv_sub ob); simpl; [exact Hinv|apply ladder_sub_refl|exact Hsub| |exact Hne|].
      - eapply level_ok_nonempty, Hbl.
      - unfold book_orders; simpl. rewrite Eo', app_assoc. exact Hidx'. }
    split; [exact Hinv'|]. split; [apply ladder_sub_refl|]. split; [exact Hsub|].
    eapply book_index_absent; [exact Hinv'|]. simpl. apply lookup_delete_eq.
Qed.

(** *** The FillAndKill post-check of MatchOrders *)

Lemma CancelFront_inv ob h l ob1 :
  book_inv ob h -> CancelFrontFillAndKill ob l = Ok ob1 ->
  book_inv ob1 h /\ ladder_sub (bids_ ob1) (bids_ ob) /\ ladder_sub (asks_ ob1) (asks_ ob).
Proof.
  intros Hinv. unfold CancelFrontFillAndKill.
  destruct l as [|[k [|o t]] l];
    try (intros [= <-]; split; [exact Hinv|split; apply ladder_sub_refl]).
  destruct (OrderType_eqb (GetOrderType o) FillAndKill);
    [|intros [= <-]; split; [exact Hinv|split; apply ladder_sub_refl]].
  intros Hc. destruct (CancelOrder_inv _ _ _ _ Hinv Hc) as (? & ? & ? & _). auto.
Qed.

Lemma CancelFront_no_fak ob h (sel : Orderbook -> Ladder) ob1 :
  (sel = bids_ \/ sel = asks_) -> book_inv ob h -> fak_front (sel ob) ->
  CancelFrontFillAndKill ob (sel ob) = Ok ob1 -> no_fak (ladder_orders (sel ob1)).
Proof.
  intros Hsel Hinv Hff Hc.
  assert (Hsub : ladder_sub (sel ob1) (sel ob)).
  { destruct (CancelFront_inv _ _ _ _ Hinv Hc) as (_ & Hb & Ha).
    destruct Hsel as [-> | ->]; assumption. }
  assert (Hbo : forall o', In o' (ladder_orders (sel ob1)) -> In o' (book_orders ob1)).
  { intros o' Hin. unfold book_orders. apply in_or_app. destruct Hsel as [-> | ->]; auto. }
  revert Hc Hsub. unfold CancelFrontFillAndKill.
  destruct (sel ob) as [|[k [|o t]] l] eqn:E; simpl in Hff.
  - intros [= <-] _. rewrite E. constructor.
  - intros [= <-] _. rewrite E. destruct Hff as [_ Hl]. exact Hl.
  - destruct Hff as [Ht Hl].
    change (OrderType_eqb (GetOrderType o) FillAndKill) with (is_fak o).
    destruct (is_fak o) eqn:Ef.
    + intros Hc Hsub. destruct (CancelOrder_inv _ _ _ _ Hinv Hc) as (_ & _ & _ & Hgone).
      unfold no_fak. apply List.Forall_forall. intros o' Hin'.
      destruct (is_fak o') eqn:Ef'; [exfalso|reflexivity].
      destruct (ladder_sub_orders _ _ _ Hsub Hin') as (o'' & Hin'' & Ht'' & Hid'' & _).
      rewrite ladder_orders_cons in Hin''. simpl in Hin''.
      destruct Hin'' as [<-|Hin''].
      * apply (Hgone o' (Hbo o' Hin')). symmetry. exact Hid''.
      * apply in_app_or in Hin'' as [Hin''|Hin''].
        -- unfold no_fak in Ht. rewrite List.Forall_forall in Ht.
           specialize (Ht o'' Hin''). unfold is_fak in Ht, Ef'. rewrite Ht'' in Ht. congruence.
        -- unfold no_fak in Hl. rewrite List.Forall_forall in Hl.
           specialize (Hl o'' Hin''). unfold is_fak in Hl, Ef'. rewrite Ht'' in Hl. congruence.
    + intros [= <-] _. rewrite E. rewrite ladder_orders_cons. constructor; [exact Ef|].
      apply no_fak_app. split; assumption.
Qed.

Lemma MatchOrders_body_inv ob h ob' trades :
  book_inv ob h -> fak_front (bids_ ob) -> fak_front (asks_ ob) ->
  MatchOrders_body ob = Ok (ob', trades) -> reach_inv ob' h.
Proof.
  intros Hinv Hfb Hfa. unfold MatchOrders_body.
  destruct (MatchLoop (match_fuel ob) ob []) as [[ob1 tr1]|e] eqn:Em; simpl; [|discriminate].
  destruct (MatchLoop_inv _ _ _ _ _ _ Hinv Em) as (Hinv1 & Hb1 & Ha1 & Hnc1).
  specialize (Hnc1 ltac:(unfold match_fuel; lia)).
  destruct (CancelFrontFillAndKill ob1 (bids_ ob1)) as [ob2|e] eqn:E2; simpl; [|discriminate].
  destruct (CancelFrontFillAndKill ob2 (asks_ ob2)) as [ob3|e] eqn:E3; simpl; [|discriminate].
  intros [= <- <-].
  pose proof (ladder_sub_fak_front _ _ Hb1 Hfb) as Hfb1.
  pose proof (ladder_sub_fak_front _ _ Ha1 Hfa) as Hfa1.
  destruct (CancelFront_inv _ _ _ _ Hinv1 E2) as (Hinv2 & Hb2 & Ha2).
  destruct (CancelFront_inv _ _ _ _ Hinv2 E3) as (Hinv3 & Hb3 & Ha3).
  pose proof (CancelFront_no_fak ob1 h bids_ ob2 (or_introl eq_refl) Hinv1 Hfb1 E2) as Hnb2.
  pose proof (CancelFront_no_fak ob2 h asks_ ob3 (or_intror eq_refl) Hinv2
                (ladder_sub_fak_front _ _ Ha2 Hfa1) E3) as Hna3.
  split; [exact Hinv3|]. split.
  - apply (not_crossed_sub ob1);
      [exact (inv_bids_sorted _ _ Hinv1)|exact (inv_asks_sorted _ _ Hinv1)
      |eapply ladder_sub_trans; eauto|eapply ladder_sub_trans; eauto|exact Hnc1].
  - unfold book_orders. apply no_fak_app. split; [eapply ladder_sub_no_fak; eauto|exact Hna3].
Qed.

(** *** Submission history *)

Lemma last_index_from_app h z x i acc :
  last_index_from (h ++ [z]) x i acc =
  if z =? x then Some (i + length h)%nat else last_index_from h x i acc.
Proof.
  revert i acc. induction h as [|y h IH]; intros i acc; simpl.
  - rewrite Nat.add_0_r. destruct (z =? x); reflexivity.
  - rewrite IH. destruct (z =? x); [f_equal; lia|reflexivity].
Qed.

Lemma last_index_app_ne h z x : z <> x -> last_index (h ++ [z]) x = last_index h x.
Proof.
  intros Hne. unfold last_index. rewrite last_index_from_app.
  apply Z.eqb_neq in Hne. rewrite Hne. reflexivity.
Qed.

Lemma last_index_app_eq h z : last_index (h ++ [z]) z = Some (length h).
Proof. unfold last_index. rewrite last_index_from_app, Z.eqb_refl. reflexivity. Qed.

Lemma last_index_from_bound h x i acc j :
  (forall k, acc = Some k -> (k < i)%nat) ->
  last_index_from h x i acc = Some j -> (j < i + length h)%nat.
Proof.
  revert i acc. induction h as [|y h IH]; intros i acc Hacc; simpl.
  - intros E. specialize (Hacc j E). lia.
  - intros E. apply IH in E; [lia|]. intros k Hk.
    destruct (y =? x); [injection Hk; lia|specialize (Hacc k Hk); lia].
Qed.

Lemma last_index_from_some h x i k : exists j, last_index_from h x i (Some k) = Some j.
Proof.
  revert i k. induction h as [|y h IH]; intros i k; simpl; [eauto|].
  destruct (y =? x); apply IH.
Qed.

Lemma last_index_from_In h x i acc : In x h -> exists j, last_index_from h x i acc = Some j.
Proof.
  revert i acc. induction h as [|y h IH]; intros i acc; simpl; [contradiction|].
  intros [->|Hin].
  - rewrite Z.eqb_refl. apply last_index_from_some.
  - apply IH, Hin.
Qed.

Lemma last_index_bound h x j : last_index h x = Some j -> (j < length h)%nat.
Proof.
  intros E. apply last_index_from_bound in E; [lia|]. discriminate.
Qed.

Lemma submitted_before_app h z x y :
  x <> z -> y <> z -> submitted_before h x y -> submitted_before (h ++ [z]) x y.
Proof.
  intros Hx Hy (i & j & Ei & Ej & Hij). exists i, j.
  rewrite !last_index_app_ne by congruence. auto.
Qed.

Lemma submitted_before_new h z x : In x h -> x <> z -> submitted_before (h ++ [z]) x z.
Proof.
  intros Hin Hne. destruct (last_index_from_In h x 0 None Hin) as [i Ei].
  exists i, (length h). rewrite last_index_app_ne by congruence. rewrite last_index_app_eq.
  split; [exact Ei|]. split; [reflexivity|]. exact (last_index_bound _ _ _ Ei).
Qed.

Lemma submitted_before_irrefl h x : ~ submitted_before h x x.
Proof. intros (i & j & Ei & Ej & Hij). rewrite Ei in Ej. injection Ej. lia. Qed.

Lemma submitted_before_asym h x y : submitted_before h x y -> ~ submitted_before h y x.
Proof.
  intros (i & j & Ei & Ej & Hij) (j' & i' & Ej' & Ei' & Hji).
  rewrite Ei in Ei'. rewrite Ej in Ej'. injection Ei'. injection Ej'. lia.
Qed.

Lemma StronglySorted_impl_in {A} (R R' : A -> A -> Prop) (l : list A) :
  (forall x y, In x l -> In y l -> R x y -> R' x y) -> StronglySorted R l -> StronglySorted R' l.
Proof.
  induction l as [|a l IH]; intros Himp HS; [constructor|].
  inversion HS as [|? ? HS' HF]; subst. constructor.
  - apply IH; [intros x y Hx Hy; apply Himp; right; assumption|exact HS'].
  - rewrite List.Forall_forall in *. intros y Hy. apply Himp; [left; reflexivity|right; exact Hy|].
    apply HF, Hy.
Qed.

Lemma StronglySorted_snoc {A} (R : A -> A -> Prop) (l : list A) y :
  StronglySorted R l -> Forall (fun x => R x y) l -> StronglySorted R (l ++ [y]).
Proof.
  induction l as [|a l IH]; simpl; intros HS HF.
  - repeat constructor.
  - inversion HS; subst. inversion HF; subst. constructor; [auto|].
    apply Forall_app. split; [assumption|]. repeat constructor. assumption.
Qed.

Lemma In_ladder_orders l lv o : In lv l -> In o (snd lv) -> In o (ladder_orders l).
Proof. intros Hl Ho. unfold ladder_orders. apply in_concat. exists (snd lv). split; [apply in_map|]; assumption. Qed.

(** Admitting a new id [z] keeps a level well formed. *)
Lemma level_ok_lift s h z lv :
  level_ok s h lv -> (forall o, In o (snd lv) -> GetOrderId o <> z) -> level_ok s (h ++ [z]) lv.
Proof.
  intros (Hne & Hf & Hu & Hs) Hz. split; [exact Hne|]. split; [|split; [exact Hu|]].
  - eapply Forall_impl; [exact Hf|]. intros o (H1 & H2 & H3). split; [exact H1|].
    split; [exact H2|]. apply in_or_app. left. exact H3.
  - eapply StronglySorted_impl_in; [|exact Hs]. intros x y Hx Hy Hxy.
    apply in_map_iff in Hx as (ox & <- & Hx). apply in_map_iff in Hy as (oy & <- & Hy).
    apply submitted_before_app; auto.
Qed.

Lemma ladder_lift s h z l :
  Forall (level_ok s h) l -> (forall o, In o (ladder_orders l) -> GetOrderId o <> z) ->
  Forall (level_ok s (h ++ [z])) l.
Proof.
  intros HF Hz. apply List.Forall_forall. intros lv Hlv. apply level_ok_lift.
  - rewrite List.Forall_forall in HF. apply HF, Hlv.
  - intros o Ho. apply Hz. eapply In_ladder_orders; eauto.
Qed.

(** *** Inserting into a ladder *)

Lemma push_orders cmp p o (l : Ladder) :
  Permutation (ladder_orders (level_push cmp p o l)) (ladder_orders l ++ [o]).
Proof.
  induction l as [|[k q] l IH]; simpl; [reflexivity|].
  destruct (k =? p); [|destruct (cmp p k)]; rewrite ?ladder_orders_cons.
  - rewrite <- !app_assoc. apply Permutation_app_head, Permutation_app_comm.
  - apply (Permutation_app_comm [o]).
  - rewrite <- app_assoc. apply Permutation_app_head, IH.
Qed.

Lemma push_keys cmp p o (l : Ladder) k q :
  In (k, q) (level_push cmp p o l) -> k = p \/ exists q0, In (k, q0) l.
Proof.
  induction l as [|[k0 q0] l IH]; simpl.
  - intros [[= -> _]|[]]. left. reflexivity.
  - destruct (k0 =? p); [|destruct (cmp p k0)]; simpl.
    + intros [[= -> _]|Hin]; right; eauto.
    + intros [[= -> _]|[Hin|Hin]]; [left; reflexivity|right; eauto|right; eauto].
    + intros [Hin|Hin]; [right; eauto|]. destruct (IH Hin) as [->|[q1 Hq1]]; [left; reflexivity|right; eauto].
Qed.

Lemma push_head cmp p o (l : Ladder) :
  match l with [] => True | (k, _) :: _ => k <> p /\ cmp p k = true end ->
  level_push cmp p o l = (p, [o]) :: l.
Proof.
  destruct l as [|[k q] l]; simpl; [reflexivity|]. intros [Hne Hc].
  apply Z.eqb_neq in Hne. rewrite Hne, Hc. reflexivity.
Qed.

Section Push.

Variable cmp : Z -> Z -> bool.
Variable r : Z -> Z -> Prop.
Hypothesis cmp_r : forall x y, cmp x y = true -> r x y.
Hypothesis cmp_false : forall x y, cmp x y = false -> x <> y -> r y x.
Hypothesis r_trans : forall x y z, r x y -> r y z -> r x z.

Lemma push_sorted p o (l : Ladder) :
  StronglySorted (fun a b => r (fst a) (fst b)) l ->
  StronglySorted (fun a b => r (fst a) (fst b)) (level_push cmp p o l).
Proof.
  induction l as [|[k q] l IH]; simpl; intros HS; [repeat constructor|].
  inversion HS as [|? ? HS' HF]; subst.
  destruct (k =? p) eqn:Ek; [constructor; assumption|].
  apply Z.eqb_neq in Ek. destruct (cmp p k) eqn:Ec.
  - constructor; [exact HS|]. constructor; [apply cmp_r, Ec|].
    eapply Forall_impl; [exact HF|]. intros lv Hlv. eapply r_trans; [apply cmp_r, Ec|exact Hlv].
  - constructor; [apply IH, HS'|]. apply List.Forall_forall. intros [k' q'] Hin.
    destruct (push_keys _ _ _ _ _ _ Hin) as [->|[q0 Hq0]].
    + simpl. apply cmp_false; [exact Ec|]. intros E. apply Ek. symmetry. exact E.
    + rewrite List.Forall_forall in HF. exact (HF _ Hq0).
Qed.

Lemma push_levels s h o (l : Ladder) :
  Forall (level_ok s h) l -> GetSide o = s -> In (GetOrderId o) h -> unfilled o ->
  (forall lv o', In lv l -> fst lv = GetPrice o -> In o' (snd lv) ->
                 submitted_before h (GetOrderId o') (GetOrderId o)) ->
  Forall (level_ok s h) (level_push cmp (GetPrice o) o l).
Proof.
  intros HF Hs Hh Hu. induction l as [|[k q] l IH]; simpl; intros Hbefore.
  - constructor; [|constructor]. split; [discriminate|]. split; [|split].
    + repeat constructor; assumption.
    + constructor.
    + repeat constructor.
  - inversion HF as [|? ? Hlv HF']; subst.
    destruct (k =? GetPrice o) eqn:Ek; [|destruct (cmp (GetPrice o) k)].
    + apply Z.eqb_eq in Ek. subst k. constructor; [|exact HF'].
      destruct Hlv as (Hne & Hf & Hu' & Hso). simpl in *.
      split; [destruct q; discriminate|]. split; [|split].
      * apply Forall_app. split; [exact Hf|]. repeat constructor; assumption.
      * destruct q as [|o0 q]; [contradiction|]. simpl in *.
        apply Forall_app. split; [exact Hu'|]. repeat constructor. exact Hu.
      * simpl. rewrite map_app. apply StronglySorted_snoc; [exact Hso|].
        apply List.Forall_forall. intros x Hx. apply in_map_iff in Hx as (o' & <- & Ho').
        apply (Hbefore (GetPrice o, q)); [left|..]; auto.
    + constructor; [|exact HF]. split; [discriminate|]. split; [|split].
      * repeat constructor; assumption.
      * constructor.
      * repeat constructor.
    + constructor; [exact Hlv|]. apply IH; [exact HF'|].
      intros lv o' Hlv' Hp Ho'. apply (Hbefore lv); [right|..]; assumption.
Qed.

End Push.

(** *** Admitting an order, and every reachable book *)

Lemma InsertOrder_orders ob o :
  Permutation (book_orders (InsertOrder ob o)) (book_orders ob ++ [o]).
Proof.
  unfold InsertOrder, book_orders. destruct (GetSide o); simpl.
  - eapply Permutation_trans; [apply Permutation_app_tail, push_orders|].
    rewrite <- !app_assoc. apply Permutation_app_head, Permutation_app_comm.
  - eapply Permutation_trans; [apply Permutation_app_head, push_orders|].
    rewrite app_assoc. reflexivity.
Qed.

Lemma InsertOrder_index ob o :
  orders_ (InsertOrder ob o) = <[GetOrderId o := mkEntry o]> (orders_ ob).
Proof. unfold InsertOrder. destruct (GetSide o); reflexivity. Qed.

Lemma contains_false m k : contains m k = false -> m !! k = None.
Proof. unfold contains. destruct (m !! k); [discriminate|reflexivity]. Qed.

Lemma InsertOrder_inv ob h o :
  reach_inv ob h -> contains (orders_ ob) (GetOrderId o) = false -> unfilled o ->
  (is_fak o = false \/ CanMatch ob (GetSide o) (GetPrice o) = true) ->
  book_inv (InsertOrder ob o) (h ++ [GetOrderId o]) /\
  fak_front (bids_ (InsertOrder ob o)) /\ fak_front (asks_ (InsertOrder ob o)).
Proof.
  intros (Hinv & Hnc & Hnf) Hc Hu Hfk. pose proof Hinv as [Hbs Has Hbl Hal Hnd Hidx].
  assert (Habs : forall o', In o' (book_orders ob) -> GetOrderId o' <> GetOrderId o).
  { apply (book_index_absent _ h); [exact Hinv|]. apply contains_false, Hc. }
  assert (Habsb : forall o', In o' (ladder_orders (bids_ ob)) -> GetOrderId o' <> GetOrderId o).
  { intros o' Ho'. apply Habs. unfold book_orders. apply in_or_app. left. exact Ho'. }
  assert (Habsa : forall o', In o' (ladder_orders (asks_ ob)) -> GetOrderId o' <> GetOrderId o).
  { intros o' Ho'. apply Habs. unfold book_orders. apply in_or_app. right. exact Ho'. }
  assert (Hhz : In (GetOrderId o) (h ++ [GetOrderId o])) by (apply in_or_app; right; left; reflexivity).
  pose proof (ladder_lift _ _ (GetOrderId o) _ Hbl Habsb) as Hbl'.
  pose proof (ladder_lift _ _ (GetOrderId o) _ Hal Habsa) as Hal'.
  assert (Hbefore : forall s l lv o', Forall (level_ok s h) l ->
            (forall o', In o' (ladder_orders l) -> GetOrderId o' <> GetOrderId o) ->
            In lv l -> In o' (snd lv) ->
            submitted_before (h ++ [GetOrderId o]) (GetOrderId o') (GetOrderId o)).
  { intros s l lv o' HF Hz Hlv Ho'. apply submitted_before_new.
    - rewrite List.Forall_forall in HF. destruct (HF lv Hlv) as (_ & Hf & _).
      rewrite List.Forall_forall in Hf. apply (Hf o' Ho').
    - apply Hz. eapply In_ladder_orders; eauto. }
  pose proof (InsertOrder_orders ob o) as Hperm.
  assert (Hnd' : NoDup (map GetOrderId (book_orders (InsertOrder ob o)))).
  { assert (Hp : map GetOrderId (book_orders (InsertOrder ob o)) ≡ₚ map GetOrderId (book_orders ob ++ [o]))
      by (apply Permutation_map, Hperm).
    rewrite Hp, map_app. apply NoDup_app. split; [exact Hnd|]. split; [|apply NoDup_singleton].
    intros x Hx Hx'. apply list_elem_of_In in Hx, Hx'. destruct Hx' as [<-|[]].
    apply in_map_iff in Hx as (o' & Heq & Ho'). exact (Habs o' Ho' Heq). }
  assert (Hidx' : index_ok (orders_ (InsertOrder ob o)) (book_orders (InsertOrder ob o))).
  { rewrite InsertOrder_index. eapply index_ok_In_iff; [|apply index_ok_insert, Hidx].
    intros o'. split; apply Permutation_in; [symmetry|]; exact Hperm. }
  assert (Hnf' : is_fak o = false -> no_fak (ladder_orders (bids_ (InsertOrder ob o))) /\
                                     no_fak (ladder_orders (asks_ (InsertOrder ob o)))).
  { intros Ho. apply no_fak_app. unfold no_fak. apply List.Forall_forall. intros o' Ho'.
    apply (Permutation_in _ Hperm) in Ho'. apply in_app_or in Ho' as [Ho'|[<-|[]]]; [|exact Ho].
    unfold no_fak in Hnf. rewrite List.Forall_forall in Hnf. apply Hnf, Ho'. }
  apply no_fak_app in Hnf as [Hnfb Hnfa].
  destruct (GetSide o) eqn:Es.
  - assert (Hhead : is_fak o = true ->
              level_push Z.gtb (GetPrice o) o (bids_ ob) = (GetPrice o, [o]) :: bids_ ob).
    { intros Ht. destruct Hfk as [Hf|Hcm]; [congruence|].
      apply push_head. unfold CanMatch in Hcm.
      unfold not_crossed, bestBidPrice, bestAskPrice in Hnc.
      destruct (asks_ ob) as [|[a qa] al]; [discriminate|]. apply Z.geb_le in Hcm.
      destruct (bids_ ob) as [|[b qb] bl]; [exact I|]. simpl in Hnc.
      split; [lia|]. apply Z.gtb_lt. lia. }
    assert (Eins : InsertOrder ob o =
              {| bids_ := level_push Z.gtb (GetPrice o) o (bids_ ob); asks_ := asks_ ob;
                 orders_ := <[GetOrderId o := mkEntry o]> (orders_ ob) |})
      by (unfold InsertOrder; rewrite Es; reflexivity).
    rewrite Eins in *. cbn [bids_ asks_ orders_] in *.
    split; [constructor|].
    + apply (push_sorted Z.gtb (fun x y => y < x)); cbv beta.
      * intros x y Hxy. apply Z.gtb_lt in Hxy. exact Hxy.
      * intros x y Hxy Hne. rewrite Z.gtb_ltb in Hxy. apply Z.ltb_ge in Hxy. lia.
      * intros x y z. lia.
      * exact Hbs.
    + exact Has.
    + apply push_levels; [exact Hbl'|exact Es|exact Hhz|exact Hu|].
      intros lv o' Hlv _ Ho'. exact (Hbefore Buy _ lv o' Hbl Habsb Hlv Ho').
    + exact Hal'.
    + exact Hnd'.
    + exact Hidx'.
    + destruct (is_fak o) eqn:Ef.
      * rewrite Hhead by reflexivity. split; [split; [constructor|exact Hnfb]|].
        apply no_fak_fak_front, Hnfa.
      * destruct (Hnf' eq_refl) as [H1 H2]. split; apply no_fak_fak_front; assumption.
  - assert (Hhead : is_fak o = true ->
              level_push Z.ltb (GetPrice o) o (asks_ ob) = (GetPrice o, [o]) :: asks_ ob).
    { intros Ht. destruct Hfk as [Hf|Hcm]; [congruence|].
      apply push_head. unfold CanMatch in Hcm.
      unfold not_crossed, bestBidPrice, bestAskPrice in Hnc.
      destruct (bids_ ob) as [|[b qb] bl]; [discriminate|]. apply Z.leb_le in Hcm.
      destruct (asks_ ob) as [|[a qa] al]; [exact I|]. simpl in Hnc.
      split; [lia|]. apply Z.ltb_lt. lia. }
    assert (Eins : InsertOrder ob o =
              {| bids_ := bids_ ob; asks_ := level_push Z.ltb (GetPrice o) o (asks_ ob);
                 orders_ := <[GetOrderId o := mkEntry o]> (orders_ ob) |})
      by (unfold InsertOrder; rewrite Es; reflexivity).
    rewrite Eins in *. cbn [bids_ asks_ orders_] in *.
    split; [constructor|].
    + exact Hbs.
    + apply (push_sorted Z.ltb (fun x y => x < y)); cbv beta.
      * intros x y Hxy. apply Z.ltb_lt in Hxy. exact Hxy.
      * intros x y Hxy Hne. apply Z.ltb_ge in Hxy. lia.
      * intros x y z. lia.
      * exact Has.
    + exact Hbl'.
    + apply push_levels; [exact Hal'|exact Es|exact Hhz|exact Hu|].
      intros lv o' Hlv _ Ho'. exact (Hbefore Sell _ lv o' Hal Habsa Hlv Ho').
    + exact Hnd'.
    + exact Hidx'.
    + destruct (is_fak o) eqn:Ef.
      * rewrite Hhead by reflexivity. split; [apply no_fak_fak_front, Hnfb|].
        split; [constructor|exact Hnfa].
      * destruct (Hnf' eq_refl) as [H1 H2]. split; apply no_fak_fak_front; assumption.
Qed.

Lemma AddOrder_inv ob h o ob' r :
  reach_inv ob h -> unfilled o -> AddOrder ob o = Ok (ob', r) ->
  reach_inv ob' (if AddOrder_admits ob o then h ++ [GetOrderId o] else h).
Proof.
  intros Hr Hu. unfold AddOrder, AddOrder_admits.
  destruct (contains (orders_ ob) (GetOrderId o)) eqn:Ec; simpl; [intros [= <- _]; exact Hr|].
  destruct (OrderType_eqb (GetOrderType o) FillAndKill && negb (CanMatch ob (GetSide o) (GetPrice o)))
    eqn:Ef; simpl; [intros [= <- _]; exact Hr|].
  intros Hm. unfold MatchOrders in Hm.
  destruct (MatchOrders_body (InsertOrder ob o)) as [[ob1 tr]|e] eqn:Eb; simpl in Hm; [|discriminate].
  injection Hm as <- _.
  assert (Hfk : is_fak o = false \/ CanMatch ob (GetSide o) (GetPrice o) = true).
  { unfold is_fak. destruct (OrderType_eqb (GetOrderType o) FillAndKill); [right|left; reflexivity].
    simpl in Ef. destruct (CanMatch ob (GetSide o) (GetPrice o)); [reflexivity|discriminate]. }
  destruct (InsertOrder_inv ob h o Hr Ec Hu Hfk) as (Hinv & Hfb & Hfa).
  exact (MatchOrders_body_inv _ _ _ _ Hinv Hfb Hfa Eb).
Qed.

Lemma empty_book_inv : reach_inv empty_book [].
Proof.
  split; [|split; [exact I|constructor]]. split; try constructor.
  intros x. simpl. rewrite lookup_empty. intros o [].
Qed.

Lemma CancelOrder_reach_inv ob h x ob' :
  reach_inv ob h -> CancelOrder ob x = Ok ob' -> reach_inv ob' h.
Proof.
  intros (Hinv & Hnc & Hnf) Hc. destruct (CancelOrder_inv _ _ _ _ Hinv Hc) as (Hinv' & Hb & Ha & _).
  split; [exact Hinv'|]. split.
  - exact (not_crossed_sub _ _ (inv_bids_sorted _ _ Hinv) (inv_asks_sorted _ _ Hinv) Hb Ha Hnc).
  - unfold book_orders in *. apply no_fak_app in Hnf as [Hnb Hna].
    apply no_fak_app. split; eapply ladder_sub_no_fak; eauto.
Qed.

Lemma reachable_inv ob h : reachable ob h -> reach_inv ob h.
Proof.
  induction 1 as [|ob h t i s p q ob' r Hr IH Ha|ob h x ob' Hr IH Hc|ob h m ob' r Hr IH Hm].
  - exact empty_book_inv.
  - exact (AddOrder_inv _ _ (Order_new t i s p q) _ _ IH eq_refl Ha).
  - exact (CancelOrder_reach_inv _ _ _ _ IH Hc).
  - unfold MatchOrder in Hm. destruct (negb _); injection Hm as <- _; exact IH.
Qed.

(** *** Price-time priority within a level *)

Lemma sorted_key_unique (r : Z -> Z -> Prop) (l : Ladder) k q q' :
  (forall z, ~ r z z) -> StronglySorted (fun a b : Price * OrderPointers => r (fst a) (fst b)) l ->
  In (k, q) l -> In (k, q') l -> q = q'.
Proof.
  intros Hirr. induction l as [|[k0 q0] l IH]; intros HS; [contradiction|].
  inversion HS as [|? ? HS' HF]; subst. rewrite List.Forall_forall in HF.
  intros [E1|Hin] [E2|Hin'].
  - congruence.
  - exfalso. injection E1 as Ek _. subst k0. apply (Hirr k). exact (HF _ Hin').
  - exfalso. injection E2 as Ek _. subst k0. apply (Hirr k). exact (HF _ Hin).
  - apply IH; assumption.
Qed.

Lemma same_level_fifo (r : Z -> Z -> Prop) s h (l : Ladder) E L :
  (forall z, ~ r z z) -> StronglySorted (fun a b : Price * OrderPointers => r (fst a) (fst b)) l ->
  Forall (level_ok s h) l ->
  In E (ladder_orders l) -> In L (ladder_orders l) -> GetPrice E = GetPrice L ->
  submitted_before h (GetOrderId E) (GetOrderId L) -> unfilled L.
Proof.
  intros Hirr HS HF HE HL Hp Hsb.
  destruct (ladder_locate _ _ _ _ HF HE) as (_ & l1 & q1 & q2 & l2 & El1).
  destruct (ladder_locate _ _ _ _ HF HL) as (_ & m1 & r1 & r2 & m2 & Em1).
  assert (Hq : q1 ++ E :: q2 = r1 ++ L :: r2).
  { apply (sorted_key_unique r l (GetPrice L)); [exact Hirr|exact HS| |].
    - rewrite El1. rewrite <- Hp. apply in_or_app. right. left. reflexivity.
    - rewrite Em1. apply in_or_app. right. left. reflexivity. }
  assert (Hlv : level_ok s h (GetPrice L, r1 ++ L :: r2)).
  { rewrite List.Forall_forall in HF. apply HF. rewrite Em1. apply in_or_app. right. left. reflexivity. }
  destruct Hlv as (_ & _ & Hu & Hso). simpl in Hu, Hso.
  assert (HEin : In E (r1 ++ L :: r2)) by (rewrite <- Hq; apply in_or_app; right; left; reflexivity).
  destruct r1 as [|x r1]; simpl in *.
  - destruct HEin as [<-|HEin]; [exfalso; exact (submitted_before_irrefl _ _ Hsb)|].
    inversion Hso as [|? ? _ HFs]; subst. rewrite List.Forall_forall in HFs.
    exfalso. apply (submitted_before_asym _ _ _ Hsb). apply HFs, in_map, HEin.
  - rewrite List.Forall_forall in Hu. apply Hu, in_or_app. right. left. reflexivity.
Qed.

Lemma u32_sub_nonneg a b : 0 <= u32_sub a b.
Proof. unfold u32_sub. pose proof (Z.mod_pos_bound (a - b) (2 ^ 32) ltac:(reflexivity)). lia. Qed.

(* ------------------------------------------------------------------ *)
(** ** Properties of every reachable book *)

(** C1: for every sequence of operations from the empty book, when an
    AddOrder call returns, the book is not crossed: one ladder is empty or
    the best bid is strictly below the best ask. *)
Theorem AddOrder_not_crossed ob h t i s p q ob' r :
  reachable ob h -> AddOrder ob (Order_new t i s p q) = Ok (ob', r) -> not_crossed ob'.
Proof.
  intros Hr Ha.
  destruct (reachable_inv _ _ (reachable_add _ _ _ _ _ _ _ _ _ Hr Ha)) as (_ & Hnc & _).
  exact Hnc.
Qed.

(** C5: when an AddOrder call that submits a FillAndKill order returns, no
    FillAndKill order rests in either ladder; and when the order cannot
    cross ([CanMatch] is false) the call changes nothing and returns no
    trades. *)
Theorem AddOrder_FillAndKill_not_resting ob h i s p q ob' r :
  reachable ob h -> AddOrder ob (Order_new FillAndKill i s p q) = Ok (ob', r) ->
  no_fak (book_orders ob') /\ (CanMatch ob s p = false -> ob' = ob /\ r = Some []).
Proof.
  intros Hr Ha.
  destruct (reachable_inv _ _ (reachable_add _ _ _ _ _ _ _ _ _ Hr Ha)) as (_ & _ & Hnf).
  split; [exact Hnf|]. intros Hcm. revert Ha. unfold AddOrder. simpl. rewrite Hcm. simpl.
  destruct (contains (orders_ ob) i); intros [= <- <-]; split; reflexivity.
Qed.

(** C6: of two orders resting on the same side at the same price, the
    later-submitted one has not been filled at all while the earlier one
    rests, so it has been filled no more than the earlier one. *)
Theorem price_time_priority ob h E L :
  reachable ob h -> rests ob E -> rests ob L ->
  GetSide E = GetSide L -> GetPrice E = GetPrice L ->
  submitted_before h (GetOrderId E) (GetOrderId L) ->
  GetFilledQuantity L = 0 /\ GetFilledQuantity L <= GetFilledQuantity E.
Proof.
  intros Hr HE HL Hs Hp Hsb. destruct (reachable_inv _ _ Hr) as ([Hbs Has Hbl Hal _ _] & _).
  assert (Hu : unfilled L).
  { unfold rests, book_orders in HE, HL.
    apply in_app_or in HE as [HE|HE]; apply in_app_or in HL as [HL|HL].
    - exact (same_level_fifo (fun x y => y < x) _ _ _ _ _ ltac:(intros z; cbv beta; lia) Hbs Hbl HE HL Hp Hsb).
    - exfalso. destruct (ladder_locate _ _ _ _ Hbl HE) as [HsE _].
      destruct (ladder_locate _ _ _ _ Hal HL) as [HsL _]. congruence.
    - exfalso. destruct (ladder_locate _ _ _ _ Hal HE) as [HsE _].
      destruct (ladder_locate _ _ _ _ Hbl HL) as [HsL _]. congruence.
    - exact (same_level_fifo (fun x y => x < y) _ _ _ _ _ ltac:(intros z; cbv beta; lia) Has Hal HE HL Hp Hsb). }
  assert (H0 : GetFilledQuantity L = 0).
  { unfold GetFilledQuantity. unfold unfilled in Hu. rewrite Hu. apply u32_sub_diag. }
  split; [exact H0|]. rewrite H0. apply u32_sub_nonneg.
Qed.

(** Witness for C1: order 5 (buy 3 at 10) on the empty book, then order 7
    (sell 3 at 12); the result has best bid 10 below best ask 12. *)
Lemma AddOrder_not_crossed_witness :
  reachable book5 [5] /\ AddOrder book5 order7 = Ok (book57, None) /\ not_crossed book57.
Proof.
  pose proof (reachable_add empty_book [] GoodTillCancel 5 Buy 10 3 book5 None reachable_empty
                ltac:(vm_compute; reflexivity)) as H5.
  assert (Hr : reachable book5 [5]) by exact H5.
  assert (Ha : AddOrder book5 order7 = Ok (book57, None)) by (vm_compute; reflexivity).
  split; [exact Hr|]. split; [exact Ha|].
  exact (AddOrder_not_crossed book5 [5] GoodTillCancel 7 Sell 12 3 book57 None Hr Ha).
Defined.

(** Witness for C5: a FillAndKill sell of 15 at 100 against order 1 trades
    10 and its remaining 5 is cancelled, leaving the empty book. *)
Lemma AddOrder_FillAndKill_not_resting_witness :
  reachable book1 [1] /\ AddOrder book1 order3_fak = Ok (empty_book, None) /\
  no_fak (book_orders empty_book) /\
  (CanMatch book1 Sell 100 = false -> empty_book = book1 /\ @None Trades = Some []).
Proof.
  pose proof (reachable_add empty_book [] GoodTillCancel 1 Buy 100 10 book1 None reachable_empty
                ltac:(vm_compute; reflexivity)) as H1.
  assert (Hr : reachable book1 [1]) by exact H1.
  assert (Ha : AddOrder book1 order3_fak = Ok (empty_book, None)) by (vm_compute; reflexivity).
  split; [exact Hr|]. split; [exact Ha|].
  exact (AddOrder_FillAndKill_not_resting book1 [1] 3 Sell 100 15 empty_book None Hr Ha).
Defined.

(** Witness for C6: orders 5 and 6 rest at 10 on the bid side; order 8
    fills 1 of order 5, and order 6 is untouched. *)
Lemma price_time_priority_witness :
  reachable book568 [5; 6; 8] /\
  GetFilledQuantity order6 = 0 /\ GetFilledQuantity order6 <= GetFilledQuantity order5_part.
Proof.
  pose proof (reachable_add empty_book [] GoodTillCancel 5 Buy 10 3 book5 None reachable_empty
                ltac:(vm_compute; reflexivity)) as H5.
  pose proof (reachable_add book5 _ GoodTillCancel 6 Buy 10 4 book56 None H5
                ltac:(vm_compute; reflexivity)) as H56.
  pose proof (reachable_add book56 _ GoodTillCancel 8 Sell 10 1 book568 None H56
                ltac:(vm_compute; reflexivity)) as H568.
  assert (Hr : reachable book568 [5; 6; 8]) by exact H568.
  split; [exact Hr|].
  apply (price_time_priority book568 [5; 6; 8] order5_part order6 Hr).
  - unfold rests, book_orders. simpl. auto.
  - unfold rests, book_orders. simpl. auto.
  - reflexivity.
  - reflexivity.
  - exists 0%nat, 1%nat. split; [reflexivity|]. split; [reflexivity|lia].
Defined.

(* ------------------------------------------------------------------ *)
(** ** Further properties of the operations *)

(** *** No exception escapes an operation on a reachable book *)

Lemma CancelOrder_ok ob h x : book_inv ob h -> exists ob', CancelOrder ob x = Ok ob'.
Proof.
  intros Hinv. pose proof Hinv as [Hbs Has Hbl Hal Hnd Hidx].
  destruct (book_nodup_split _ Hnd) as [Hndb Hnda].
  unfold CancelOrder. destruct (orders_ ob !! x) as [e|] eqn:Ex; [|eauto].
  pose proof (Hidx x) as Hx. rewrite Ex in Hx. destruct Hx as (o & Hin & <- & Hs & Hp).
  cbv zeta. rewrite <- Hs, <- Hp.
  unfold book_orders in Hin. apply in_app_or in Hin as [Hin|Hin].
  - destruct (cancel_in_ladder (fun x y => y < x) _ _ _ _ ltac:(intros z; cbv beta; lia) Hbs Hbl Hndb Hin)
      as (Hside & q & Hat & _). rewrite Hside, Hat. eauto.
  - destruct (cancel_in_ladder (fun x y => x < y) _ _ _ _ ltac:(intros z; cbv beta; lia) Has Hal Hnda Hin)
      as (Hside & q & Hat & _). rewrite Hside, Hat. eauto.
Qed.

Lemma CancelFront_ok ob h l : book_inv ob h -> exists ob1, CancelFrontFillAndKill ob l = Ok ob1.
Proof.
  intros Hinv. unfold CancelFrontFillAndKill.
  destruct l as [|[k [|o t]] l]; eauto.
  destruct (OrderType_eqb (GetOrderType o) FillAndKill); eauto.
  eapply CancelOrder_ok, Hinv.
Qed.

Lemma MatchOrders_body_ok ob h : book_inv ob h -> exists r, MatchOrders_body ob = Ok r.
Proof.
  intros Hinv. unfold MatchOrders_body.
  destruct (MatchLoop_ok (match_fuel ob) ob []) as [[ob1 tr1] Em]. rewrite Em. simpl.
  destruct (MatchLoop_inv _ _ _ _ _ _ Hinv Em) as (Hinv1 & _).
  destruct (CancelFront_ok ob1 h (bids_ ob1) Hinv1) as [ob2 E2]. rewrite E2. simpl.
  destruct (CancelFront_inv _ _ _ _ Hinv1 E2) as (Hinv2 & _).
  destruct (CancelFront_ok ob2 h (asks_ ob2) Hinv2) as [ob3 E3]. rewrite E3. simpl. eauto.
Qed.

Lemma AddOrder_ok ob h o :
  reach_inv ob h -> unfilled o -> exists ob' r, AddOrder ob o = Ok (ob', r).
Proof.
  intros Hr Hu. unfold AddOrder.
  destruct (contains (orders_ ob) (GetOrderId o)) eqn:Ec; [eauto|].
  destruct (OrderType_eqb (GetOrderType o) FillAndKill && negb (CanMatch ob (GetSide o) (GetPrice o)))
    eqn:Ef; [eauto|].
  assert (Hfk : is_fak o = false \/ CanMatch ob (GetSide o) (GetPrice o) = true).
  { unfold is_fak. destruct (OrderType_eqb (GetOrderType o) FillAndKill); [right|left; reflexivity].
    simpl in Ef. destruct (CanMatch ob (GetSide o) (GetPrice o)); [reflexivity|discriminate]. }
  destruct (InsertOrder_inv ob h o Hr Ec Hu Hfk) as (Hinv & _).
  destruct (MatchOrders_body_ok _ _ Hinv) as [[ob1 tr] Eb].
  unfold MatchOrders. rewrite Eb. simpl. eauto.
Qed.

(** *** Cancelling a resting order *)

Lemma CancelOrder_located ob h o :
  book_inv ob h -> In o (book_orders ob) ->
  exists ob' A B, CancelOrder ob (GetOrderId o) = Ok ob' /\
    book_orders ob = A ++ o :: B /\ book_orders ob' = A ++ B /\
    orders_ ob' = delete (GetOrderId o) (orders_ ob).
Proof.
  intros Hinv Hin. pose proof Hinv as [Hbs Has Hbl Hal Hnd Hidx].
  destruct (book_nodup_split _ Hnd) as [Hndb Hnda].
  unfold CancelOrder. destruct (orders_ ob !! GetOrderId o) as [e|] eqn:Ex.
  2:{ exfalso. exact (book_index_absent _ _ _ Hinv Ex o Hin eq_refl). }
  pose proof (Hidx (GetOrderId o)) as Hx. rewrite Ex in Hx.
  destruct Hx as (o0 & Hin0 & Hid0 & Hs & Hp).
  pose proof (NoDup_map_inj_in _ _ _ _ Hnd Hin0 Hin Hid0) as <-.
  cbv zeta. rewrite <- Hs, <- Hp.
  unfold book_orders in Hin. apply in_app_or in Hin as [Hin|Hin].
  - destruct (cancel_in_ladder (fun x y => y < x) _ _ _ _ ltac:(intros z; cbv beta; lia) Hbs Hbl Hndb Hin)
      as (Hside & q & Hat & _ & _ & A & B & Eo & Eo'). rewrite Hside, Hat.
    eexists _, A, (B ++ ladder_orders (asks_ ob)). split; [reflexivity|].
    unfold book_orders; simpl. rewrite Eo, Eo', <- !app_assoc. auto.
  - destruct (cancel_in_ladder (fun x y => x < y) _ _ _ _ ltac:(intros z; cbv beta; lia) Has Hal Hnda Hin)
      as (Hside & q & Hat & _ & _ & A & B & Eo & Eo'). rewrite Hside, Hat.
    eexists _, (ladder_orders (bids_ ob) ++ A), B. split; [reflexivity|].
    unfold book_orders; simpl. rewrite Eo, Eo', <- !app_assoc. auto.
Qed.

Lemma contains_iff m x : contains m x = true <-> exists e, m !! x = Some e.
Proof. unfold contains. destruct (m !! x); split; intros H; eauto; [discriminate|destruct H; discriminate]. Qed.

(** Reachable books for the examples: order 5 alone, then order 6 behind
    it on the same level. *)
Lemma reachable_book5 : reachable book5 [5].
Proof.
  exact (reachable_add empty_book [] GoodTillCancel 5 Buy 10 3 book5 None reachable_empty
           ltac:(vm_compute; reflexivity)).
Qed.

Lemma reachable_book56 : reachable book56 [5; 6].
Proof.
  exact (reachable_add book5 [5] GoodTillCancel 6 Buy 10 4 book56 None reachable_book5
           ltac:(vm_compute; reflexivity)).
Qed.

(** X1: on a book reached from the empty book, CancelOrder never throws:
    the [at] lookup of the level of an indexed order always finds it. *)
Theorem CancelOrder_never_throws ob h x :
  reachable ob h -> exists ob', CancelOrder ob x = Ok ob'.
Proof.
  intros Hr. destruct (reachable_inv _ _ Hr) as (Hinv & _). exact (CancelOrder_ok _ _ x Hinv).
Qed.

(** X2: on a book reached from the empty book, AddOrder of a freshly
    constructed order never throws: neither Order::Fill nor the
    fill-and-kill cancellation raises. *)
Theorem AddOrder_never_throws ob h t i s p q :
  reachable ob h -> exists ob' r, AddOrder ob (Order_new t i s p q) = Ok (ob', r).
Proof.
  intros Hr. exact (AddOrder_ok _ _ (Order_new t i s p q) (reachable_inv _ _ Hr) eq_refl).
Qed.

(** X3: cancelling a resting order of a reachable book succeeds, removes
    exactly that order (every other resting order stays, unchanged), and
    drops its id from the index. *)
Theorem CancelOrder_removes_exactly ob h o :
  reachable ob h -> rests ob o ->
  exists ob', CancelOrder ob (GetOrderId o) = Ok ob' /\
    (forall o', rests ob' o' <-> rests ob o' /\ GetOrderId o' <> GetOrderId o) /\
    contains (orders_ ob') (GetOrderId o) = false.
Proof.
  intros Hr Hin. destruct (reachable_inv _ _ Hr) as (Hinv & _).
  destruct (CancelOrder_located _ _ _ Hinv Hin) as (ob' & A & B & Ec & Eb & Eb' & Ei).
  exists ob'. split; [exact Ec|]. split.
  - pose proof (inv_nodup _ _ Hinv) as Hnd. rewrite Eb, map_app in Hnd. simpl in Hnd.
    apply NoDup_middle_notin in Hnd. rewrite <- map_app in Hnd.
    intros o'. unfold rests. rewrite Eb, Eb'. split.
    + intros H. split.
      * apply in_app_or in H as [H|H]; apply in_or_app; [left|right; right]; exact H.
      * intros Hid. apply Hnd. rewrite <- Hid. apply in_map, H.
    + intros [H Hne]. apply in_app_or in H as [H|[<-|H]]; apply in_or_app; auto. congruence.
  - unfold contains. rewrite Ei, lookup_delete_eq. reflexivity.
Qed.

(** X4: in a reachable book the index [orders_] holds an id exactly when
    an order with that id rests in one of the ladders. *)
Theorem index_matches_resting ob h x :
  reachable ob h -> (contains (orders_ ob) x = true <-> exists o, rests ob o /\ GetOrderId o = x).
Proof.
  intros Hr. destruct (reachable_inv _ _ Hr) as (Hinv & _).
  pose proof (inv_index _ _ Hinv x) as Hx. rewrite contains_iff. unfold rests.
  destruct (orders_ ob !! x) as [e|] eqn:Ex.
  - destruct Hx as (o & Hin & Hid & _). split; eauto.
  - split; [intros [e' He]; discriminate|]. intros (o & Hin & Hid). exfalso. exact (Hx o Hin Hid).
Qed.


(** X6: in a reachable book the bid ladder is in strictly decreasing and
    the ask ladder in strictly increasing price order, no level is empty,
    and every order of a level is on that ladder's side at the level's
    price. *)
Theorem ladders_well_formed ob h :
  reachable ob h ->
  bids_sorted (bids_ ob) /\ asks_sorted (asks_ ob) /\
  (forall k q, In (k, q) (bids_ ob) -> q <> [] /\ Forall (fun o => GetSide o = Buy /\ GetPrice o = k) q) /\
  (forall k q, In (k, q) (asks_ ob) -> q <> [] /\ Forall (fun o => GetSide o = Sell /\ GetPrice o = k) q).
Proof.
  intros Hr. destruct (reachable_inv _ _ Hr) as ([Hbs Has Hbl Hal _ _] & _).
  split; [exact Hbs|]. split; [exact Has|].
  split; intros k q Hin;
    [rewrite List.Forall_forall in Hbl; destruct (Hbl _ Hin) as (Hne & Hf & _)
    |rewrite List.Forall_forall in Hal; destruct (Hal _ Hin) as (Hne & Hf & _)];
    (split; [exact Hne|]); simpl in Hf; eapply Forall_impl; [exact Hf| |exact Hf|];
    intros o (? & ? & _); auto.
Qed.

Lemma CancelOrder_never_throws_witness :
  reachable book56 [5; 6] /\ exists ob', CancelOrder book56 5 = Ok ob'.
Proof.
  split; [exact reachable_book56|]. exact (CancelOrder_never_throws book56 [5; 6] 5 reachable_book56).
Defined.

Lemma AddOrder_never_throws_witness :
  reachable book56 [5; 6] /\ exists ob' r, AddOrder book56 (Order_new FillAndKill 9 Sell 10 9) = Ok (ob', r).
Proof.
  split; [exact reachable_book56|].
  exact (AddOrder_never_throws book56 [5; 6] FillAndKill 9 Sell 10 9 reachable_book56).
Defined.

Lemma CancelOrder_removes_exactly_witness :
  reachable book56 [5; 6] /\ rests book56 order5 /\
  exists ob', CancelOrder book56 (GetOrderId order5) = Ok ob' /\
    (forall o', rests ob' o' <-> rests book56 o' /\ GetOrderId o' <> GetOrderId order5) /\
    contains (orders_ ob') (GetOrderId order5) = false.
Proof.
  assert (Hin : rests book56 order5) by (unfold rests, book_orders; simpl; auto).
  split; [exact reachable_book56|]. split; [exact Hin|].
  exact (CancelOrder_removes_exactly book56 [5; 6] order5 reachable_book56 Hin).
Defined.

Lemma index_matches_resting_witness :
  reachable book56 [5; 6] /\
  (contains (orders_ book56) 6 = true <-> exists o, rests book56 o /\ GetOrderId o = 6).
Proof.
  split; [exact reachable_book56|]. exact (index_matches_resting book56 [5; 6] 6 reachable_book56).
Defined.


Lemma ladders_well_formed_witness :
  reachable book56 [5; 6] /\ bids_sorted (bids_ book56) /\ asks_sorted (asks_ book56).
Proof.
  split; [exact reachable_book56|].
  destruct (ladders_well_formed book56 [5; 6] reachable_book56) as (Hb & Ha & _). auto.
Defined.

(** *** Matching on a book with nothing to match *)

Lemma MatchLoop_not_crossed fuel ob tr : not_crossed ob -> MatchLoop (S fuel) ob tr = Ok (ob, tr).
Proof.
  unfold not_crossed, bestBidPrice, bestAskPrice, best_price. intros Hnc. simpl.
  destruct (bids_ ob) as [|[b bq] bl], (asks_ ob) as [|[a aq] al]; try reflexivity.
  apply Z.ltb_lt in Hnc. rewrite Hnc. reflexivity.
Qed.

Lemma CancelFront_no_fak_noop ob l : no_fak (ladder_orders l) -> CancelFrontFillAndKill ob l = Ok ob.
Proof.
  unfold CancelFrontFillAndKill. destruct l as [|[k [|o t]] l]; intros H; try reflexivity.
  rewrite ladder_orders_cons in H. inversion H as [|? ? Ho _]; subst.
  change (OrderType_eqb (GetOrderType o) FillAndKill) with (is_fak o). rewrite Ho. reflexivity.
Qed.

Lemma MatchOrders_body_quiet ob :
  not_crossed ob -> no_fak (book_orders ob) -> MatchOrders_body ob = Ok (ob, []).
Proof.
  intros Hnc Hnf. unfold book_orders in Hnf. apply no_fak_app in Hnf as [Hb Ha].
  unfold MatchOrders_body, match_fuel. rewrite MatchLoop_not_crossed by exact Hnc. simpl.
  rewrite (CancelFront_no_fak_noop _ _ Hb). simpl.
  rewrite (CancelFront_no_fak_noop _ _ Ha). reflexivity.
Qed.

(** *** Where AddOrder puts an order *)

Lemma push_split cmp p o (l : Ladder) :
  exists l1 l2, Forall (fun lv => fst lv <> p) l1 /\
    ((exists q, l = l1 ++ (p, q) :: l2 /\ level_push cmp p o l = l1 ++ (p, q ++ [o]) :: l2) \/
     (l = l1 ++ l2 /\ level_push cmp p o l = l1 ++ (p, [o]) :: l2 /\
      match l2 with [] => True | (k, _) :: _ => cmp p k = true end)).
Proof.
  induction l as [|[k q] l IH]; simpl.
  - exists [], []. split; [constructor|]. right. auto.
  - destruct (k =? p) eqn:Ek; [|destruct (cmp p k) eqn:Ec].
    + apply Z.eqb_eq in Ek. subst k. exists [], l. split; [constructor|]. left. eauto.
    + exists [], ((k, q) :: l). split; [constructor|]. right. auto.
    + destruct IH as (l1 & l2 & Hk & H). apply Z.eqb_neq in Ek.
      exists ((k, q) :: l1), l2. split; [constructor; assumption|].
      destruct H as [(q0 & -> & ->)|(-> & -> & Hc)]; [left; eauto|right; auto].
Qed.

Lemma level_at_app_notin (l1 l2 : Ladder) p :
  Forall (fun lv => fst lv <> p) l1 -> level_at p (l1 ++ l2) = level_at p l2.
Proof.
  induction l1 as [|[k q] l1 IH]; intros HF; simpl; [reflexivity|].
  inversion HF as [|? ? Hk HF']; subst. simpl in Hk. apply Z.eqb_neq in Hk. rewrite Hk. auto.
Qed.

Lemma level_at_notin (l : Ladder) p : Forall (fun lv => fst lv <> p) l -> level_at p l = None.
Proof. intros H. rewrite <- (app_nil_r l), level_at_app_notin by exact H. reflexivity. Qed.

(** In a sorted ladder, the key before which operator[] inserts a new
    level is not found further on. *)
Lemma sorted_after_head (r : Z -> Z -> Prop) (l2 : Ladder) p :
  (forall z, ~ r z z) -> (forall x y z, r x y -> r y z -> r x z) ->
  StronglySorted (fun a b : Price * OrderPointers => r (fst a) (fst b)) l2 ->
  match l2 with [] => True | (k, _) :: _ => r p k end ->
  Forall (fun lv => fst lv <> p) l2.
Proof.
  intros Hirr Htr HS. destruct l2 as [|[k q] l2]; intros Hpk; [constructor|].
  inversion HS as [|? ? _ HF]; subst. constructor.
  - simpl. intros ->. exact (Hirr _ Hpk).
  - eapply Forall_impl; [exact HF|]. intros [k' q'] Hlv E. simpl in Hlv, E. subst k'.
    exact (Hirr _ (Htr _ _ _ Hpk Hlv)).
Qed.

Lemma StronglySorted_app_r {A} (R : A -> A -> Prop) (l1 l2 : list A) :
  StronglySorted R (l1 ++ l2) -> StronglySorted R l2.
Proof. induction l1 as [|x l1 IH]; simpl; intros H; [exact H|]. apply IH. inversion H; assumption. Qed.

Lemma push_level_at (cmp : Z -> Z -> bool) (r : Z -> Z -> Prop) p o (l : Ladder) :
  (forall z, ~ r z z) -> (forall x y z, r x y -> r y z -> r x z) ->
  (forall x y, cmp x y = true -> r x y) ->
  StronglySorted (fun a b : Price * OrderPointers => r (fst a) (fst b)) l ->
  level_at p (level_push cmp p o l) =
    Some (match level_at p l with Some q => q | None => [] end ++ [o]).
Proof.
  intros Hirr Htr Hcmp HS. destruct (push_split cmp p o l) as (l1 & l2 & Hk & H).
  destruct H as [(q & El & Ep)|(El & Ep & Hc)]; rewrite Ep.
  - rewrite El, !level_at_split by exact Hk. reflexivity.
  - rewrite level_at_split by exact Hk. rewrite El, level_at_app_notin by exact Hk.
    rewrite El in HS. apply StronglySorted_app_r in HS.
    rewrite level_at_notin; [reflexivity|]. apply (sorted_after_head r); auto.
    destruct l2 as [|[k q] l2]; auto.
Qed.

Lemma push_best cmp p o (l : Ladder) :
  best_price (level_push cmp p o l) = Some p \/ best_price (level_push cmp p o l) = best_price l.
Proof.
  destruct l as [|[k q] l]; simpl; [left; reflexivity|].
  destruct (k =? p) eqn:E; [apply Z.eqb_eq in E; subst; auto|].
  destruct (cmp p k); simpl; auto.
Qed.

Lemma InsertOrder_not_crossed ob o :
  not_crossed ob -> CanMatch ob (GetSide o) (GetPrice o) = false -> not_crossed (InsertOrder ob o).
Proof.
  unfold InsertOrder, not_crossed, bestBidPrice, bestAskPrice, CanMatch.
  destruct (GetSide o); simpl; intros Hnc Hcm.
  - destruct (push_best Z.gtb (GetPrice o) o (bids_ ob)) as [E|E]; rewrite E; [|exact Hnc].
    destruct (asks_ ob) as [|[a q] l]; [exact I|]. simpl.
    rewrite Z.geb_leb, Z.leb_gt in Hcm. exact Hcm.
  - destruct (push_best Z.ltb (GetPrice o) o (asks_ ob)) as [E|E]; rewrite E; [|exact Hnc].
    destruct (bids_ ob) as [|[b q] l]; [exact I|]. simpl.
    rewrite Z.leb_gt in Hcm. exact Hcm.
Qed.

Lemma InsertOrder_no_fak ob o :
  no_fak (book_orders ob) -> is_fak o = false -> no_fak (book_orders (InsertOrder ob o)).
Proof.
  unfold no_fak. intros H Ho. apply List.Forall_forall. intros x Hx.
  apply (Permutation_in _ (InsertOrder_orders ob o)) in Hx.
  apply in_app_or in Hx as [Hx|[<-|[]]]; [|exact Ho].
  rewrite List.Forall_forall in H. exact (H x Hx).
Qed.

(** A GoodTillCancel order with a new id that cannot cross is inserted,
    and the matching pass that follows does nothing. *)
Lemma AddOrder_GTC_insert ob h i s p q :
  reachable ob h -> contains (orders_ ob) i = false -> CanMatch ob s p = false ->
  AddOrder ob (Order_new GoodTillCancel i s p q) =
    Ok (InsertOrder ob (Order_new GoodTillCancel i s p q), None).
Proof.
  intros Hr Hc Hcm. destruct (reachable_inv _ _ Hr) as (_ & Hnc & Hnf).
  unfold AddOrder. cbn [GetOrderId GetOrderType Order_new orderId_ orderType_ OrderType_eqb andb].
  rewrite Hc. unfold MatchOrders. rewrite MatchOrders_body_quiet; [reflexivity| |].
  - apply InsertOrder_not_crossed; [exact Hnc|exact Hcm].
  - apply InsertOrder_no_fak; [exact Hnf|reflexivity].
Qed.

Lemma erase_after_push cmp (l : Ladder) p o :
  Forall (fun lv => snd lv <> []) l ->
  (forall o', In o' (ladder_orders l) -> GetOrderId o' <> GetOrderId o) ->
  exists q', level_at p (level_push cmp p o l) = Some q' /\
             erase_from_level (level_push cmp p o l) p q' (GetOrderId o) = l.
Proof.
  intros Hne Hids. destruct (push_split cmp p o l) as (l1 & l2 & Hk & H).
  destruct H as [(q & El & Ep)|(El & Ep & _)]; rewrite Ep.
  - exists (q ++ [o]). split; [apply level_at_split, Hk|].
    assert (Hn : ~ In (GetOrderId o) (map GetOrderId q)).
    { intros Hi. apply in_map_iff in Hi as (o' & Hid & Hin). apply (Hids o'); [|exact Hid].
      rewrite El, ladder_orders_app, ladder_orders_cons. apply in_or_app. right. apply in_or_app. left. exact Hin. }
    rewrite (erase_from_level_split l1 p q o [] l2 Hk Hn), app_nil_r, El.
    rewrite El in Hne. apply Forall_app in Hne as [_ Hne]. inversion Hne as [|? ? Hq _]; subst.
    destruct q; [contradiction|reflexivity].
  - exists [o]. split; [apply level_at_split, Hk|].
    pose proof (erase_from_level_split l1 p [] o [] l2 Hk (fun H => H)) as E.
    cbn [app] in E. rewrite E. symmetry. exact El.
Qed.

Lemma CancelOrder_InsertOrder ob h o :
  book_inv ob h -> orders_ ob !! GetOrderId o = None ->
  CancelOrder (InsertOrder ob o) (GetOrderId o) = Ok ob.
Proof.
  intros Hinv Hi. pose proof (book_index_absent _ _ _ Hinv Hi) as Habs.
  pose proof (level_ok_nonempty _ _ _ (inv_bids_levels _ _ Hinv)) as Hneb.
  pose proof (level_ok_nonempty _ _ _ (inv_asks_levels _ _ Hinv)) as Hnea.
  unfold CancelOrder. rewrite InsertOrder_index, lookup_insert_eq. cbv zeta.
  change (order_ (mkEntry o)) with o. unfold InsertOrder.
  destruct (GetSide o); cbn [bids_ asks_ orders_].
  - destruct (erase_after_push Z.gtb (bids_ ob) (GetPrice o) o Hneb) as (q' & Hat & Her).
    { intros o' H. apply Habs. unfold book_orders. apply in_or_app. left. exact H. }
    rewrite Hat, Her, delete_insert_id by exact Hi. destruct ob; reflexivity.
  - destruct (erase_after_push Z.ltb (asks_ ob) (GetPrice o) o Hnea) as (q' & Hat & Her).
    { intros o' H. apply Habs. unfold book_orders. apply in_or_app. right. exact H. }
    rewrite Hat, Her, delete_insert_id by exact Hi. destruct ob; reflexivity.
Qed.

(** X7: on a book that is not crossed and holds no FillAndKill order,
    MatchOrders changes nothing: the matching loop stops at once, the
    fill-and-kill check cancels nothing and no trade is built. *)
Theorem MatchOrders_quiet ob :
  not_crossed ob -> no_fak (book_orders ob) ->
  MatchOrders_body ob = Ok (ob, []) /\ MatchOrders ob = Ok (ob, None).
Proof.
  intros Hnc Hnf. pose proof (MatchOrders_body_quiet _ Hnc Hnf) as E.
  split; [exact E|]. unfold MatchOrders. rewrite E. reflexivity.
Qed.

(** X8: on a reachable book, AddOrder of a GoodTillCancel order with a
    new id that cannot cross only inserts it: the resting orders become
    the old ones plus the new order, which is appended at the back of the
    level of its price on its side, and its id enters the index. *)
Theorem AddOrder_passive_rests ob h i s p q :
  reachable ob h -> contains (orders_ ob) i = false -> CanMatch ob s p = false ->
  AddOrder ob (Order_new GoodTillCancel i s p q) =
    Ok (InsertOrder ob (Order_new GoodTillCancel i s p q), None) /\
  (forall o', rests (InsertOrder ob (Order_new GoodTillCancel i s p q)) o' <->
              rests ob o' \/ o' = Order_new GoodTillCancel i s p q) /\
  level_at p (side_ladder (InsertOrder ob (Order_new GoodTillCancel i s p q)) s) =
    Some (match level_at p (side_ladder ob s) with Some q0 => q0 | None => [] end
          ++ [Order_new GoodTillCancel i s p q]) /\
  contains (orders_ (InsertOrder ob (Order_new GoodTillCancel i s p q))) i = true.
Proof.
  intros Hr Hc Hcm. destruct (reachable_inv _ _ Hr) as ([Hbs Has _ _ _ _] & _).
  split; [exact (AddOrder_GTC_insert _ _ _ _ _ _ Hr Hc Hcm)|]. split; [|split].
  - intros o'. unfold rests. pose proof (InsertOrder_orders ob (Order_new GoodTillCancel i s p q)) as HP.
    split; intros H.
    + apply (Permutation_in _ HP) in H. apply in_app_or in H as [H|[<-|[]]]; auto.
    + apply (Permutation_in _ (Permutation_sym HP)). apply in_or_app.
      destruct H as [H| ->]; [left; exact H|right; left; reflexivity].
  - unfold side_ladder, InsertOrder. destruct s; cbn [GetSide GetPrice Order_new side_ price_ bids_ asks_].
    + exact (push_level_at Z.gtb (fun x y => y < x) p _ (bids_ ob) ltac:(intros z; cbv beta; lia)
               ltac:(intros x y z; cbv beta; lia) ltac:(intros x y H; apply Z.gtb_lt in H; exact H) Hbs).
    + exact (push_level_at Z.ltb (fun x y => x < y) p _ (asks_ ob) ltac:(intros z; cbv beta; lia)
               ltac:(intros x y z; cbv beta; lia) ltac:(intros x y H; apply Z.ltb_lt in H; exact H) Has).
  - unfold contains. rewrite InsertOrder_index, lookup_insert_eq. reflexivity.
Qed.

(** X9: on a reachable book, adding a GoodTillCancel order with a new id
    that cannot cross and then cancelling it gives back exactly the book
    before the AddOrder call. *)
Theorem AddOrder_CancelOrder_roundtrip ob h i s p q ob1 r :
  reachable ob h -> contains (orders_ ob) i = false -> CanMatch ob s p = false ->
  AddOrder ob (Order_new GoodTillCancel i s p q) = Ok (ob1, r) ->
  CancelOrder ob1 i = Ok ob.
Proof.
  intros Hr Hc Hcm Ha. rewrite (AddOrder_GTC_insert _ _ _ _ _ _ Hr Hc Hcm) in Ha.
  injection Ha as <- _. destruct (reachable_inv _ _ Hr) as (Hinv & _).
  exact (CancelOrder_InsertOrder ob h (Order_new GoodTillCancel i s p q) Hinv (contains_false _ _ Hc)).
Qed.

Lemma MatchOrders_quiet_witness :
  not_crossed book57 /\ no_fak (book_orders book57) /\
  MatchOrders_body book57 = Ok (book57, []) /\ MatchOrders book57 = Ok (book57, None).
Proof.
  assert (Hnc : not_crossed book57) by (unfold not_crossed; simpl; lia).
  assert (Hnf : no_fak (book_orders book57)) by (unfold no_fak, book_orders; simpl; repeat constructor).
  split; [exact Hnc|]. split; [exact Hnf|]. exact (MatchOrders_quiet book57 Hnc Hnf).
Defined.

Lemma AddOrder_passive_rests_witness :
  reachable book5 [5] /\ contains (orders_ book5) 7 = false /\ CanMatch book5 Sell 12 = false /\
  level_at 12 (side_ladder (InsertOrder book5 order7) Sell) = Some [order7].
Proof.
  assert (Hc : contains (orders_ book5) 7 = false) by (vm_compute; reflexivity).
  assert (Hcm : CanMatch book5 Sell 12 = false) by (vm_compute; reflexivity).
  split; [exact reachable_book5|]. split; [exact Hc|]. split; [exact Hcm|].
  destruct (AddOrder_passive_rests book5 [5] 7 Sell 12 3 reachable_book5 Hc Hcm) as (_ & _ & Hl & _).
  exact Hl.
Defined.

Lemma AddOrder_CancelOrder_roundtrip_witness :
  reachable book5 [5] /\ AddOrder book5 order7 = Ok (book57, None) /\ CancelOrder book57 7 = Ok book5.
Proof.
  assert (Ha : AddOrder book5 order7 = Ok (book57, None)) by (vm_compute; reflexivity).
  split; [exact reachable_book5|]. split; [exact Ha|].
  exact (AddOrder_CancelOrder_roundtrip book5 [5] 7 Sell 12 3 book57 None reachable_book5
           ltac:(vm_compute; reflexivity) ltac:(vm_compute; reflexivity) Ha).
Defined.

(** *** Quantity and prices in the matching loop *)

Lemma remaining_sum_app l1 l2 : remaining_sum (l1 ++ l2) = remaining_sum l1 + remaining_sum l2.
Proof. induction l1 as [|o l1 IH]; simpl; [reflexivity|]. rewrite IH. lia. Qed.

Lemma traded_sum_app side t1 t2 : traded_sum side (t1 ++ t2) = traded_sum side t1 + traded_sum side t2.
Proof. induction t1 as [|t t1 IH]; simpl; [reflexivity|]. rewrite IH. lia. Qed.

Lemma remaining_sum_cons o l : remaining_sum (o :: l) = GetRemainingQuantity o + remaining_sum l.
Proof. reflexivity. Qed.

Lemma traded_sum_cons side t ts : traded_sum side (t :: ts) = TradeInfo.quantity_ (side t) + traded_sum side ts.
Proof. reflexivity. Qed.

Lemma pop_cases (o' : Order) (t : OrderPointers) {I} (x y : I) b1 i1 :
  (if IsFilled o' then (t, x) else (o' :: t, y)) = (b1, i1) ->
  (b1 = t /\ GetRemainingQuantity o' = 0) \/ b1 = o' :: t.
Proof.
  unfold IsFilled. destruct (GetRemainingQuantity o' =? 0) eqn:E; intros [= <- _]; [left|right; reflexivity].
  split; [reflexivity|]. apply Z.eqb_eq, E.
Qed.

Lemma MatchLevels_conserve fuel bids asks orders trades bids' asks' orders' trades' :
  Forall in_range bids -> Forall in_range asks ->
  MatchLevels fuel bids asks orders trades = Ok (bids', asks', orders', trades') ->
  exists ts, trades' = trades ++ ts /\ Forall in_range bids' /\ Forall in_range asks' /\
    remaining_sum bids' + traded_sum GetBidTrade ts = remaining_sum bids /\
    remaining_sum asks' + traded_sum GetAskTrade ts = remaining_sum asks.
Proof.
  revert bids asks orders trades.
  induction fuel as [|fuel IH]; intros bids asks orders trades Hb Ha; simpl.
  { intros [= <- <- <- <-]. exists []. rewrite app_nil_r. simpl. auto with zarith. }
  destruct bids as [|bid bs].
  { intros [= <- <- <- <-]. exists []. rewrite app_nil_r. simpl. auto with zarith. }
  destruct asks as [|ask as_].
  { intros [= <- <- <- <-]. exists []. rewrite app_nil_r. simpl. auto with zarith. }
  rewrite Fill_min_l, Fill_min_r. simpl bind. cbv zeta.
  set (q := Z.min (GetRemainingQuantity bid) (GetRemainingQuantity ask)).
  set (bid' := mkOrder _ _ _ _ _ (u32_sub (remainingQuantity_ bid) q)).
  set (ask' := mkOrder _ _ _ _ _ (u32_sub (remainingQuantity_ ask) q)).
  inversion Hb as [|? ? Hrb Hbs]; subst. inversion Ha as [|? ? Hra Has]; subst.
  unfold in_range in Hrb, Hra.
  assert (Eb : GetRemainingQuantity bid' = GetRemainingQuantity bid - q).
  { unfold bid', q, u32_sub. unfold GetRemainingQuantity in *; simpl. apply Z.mod_small. lia. }
  assert (Ea : GetRemainingQuantity ask' = GetRemainingQuantity ask - q).
  { unfold ask', q, u32_sub. unfold GetRemainingQuantity in *; simpl. apply Z.mod_small. lia. }
  assert (Hq : 0 <= q <= GetRemainingQuantity bid /\ q <= GetRemainingQuantity ask)
    by (unfold q; lia).
  intros Hrun. revert Hrun.
  destruct (if IsFilled bid' then (bs, delete (orderId_ bid) orders) else (bid' :: bs, orders))
    as [b1 idx1] eqn:E1. cbv beta iota.
  destruct (if IsFilled ask' then (as_, delete (orderId_ ask) idx1) else (ask' :: as_, idx1))
    as [a1 idx2] eqn:E2. cbv beta iota. intros Hrun.
  apply pop_cases in E1, E2. clearbody bid' ask' q.
  assert (Hb1 : Forall in_range b1 /\ remaining_sum b1 = remaining_sum (bid :: bs) - q).
  { rewrite remaining_sum_cons. destruct E1 as [[-> H0]| ->].
    - split; [exact Hbs|]. lia.
    - rewrite remaining_sum_cons. split; [constructor; [unfold in_range; lia|exact Hbs]|]. lia. }
  assert (Ha1 : Forall in_range a1 /\ remaining_sum a1 = remaining_sum (ask :: as_) - q).
  { rewrite remaining_sum_cons. destruct E2 as [[-> H0]| ->].
    - split; [exact Has|]. lia.
    - rewrite remaining_sum_cons. split; [constructor; [unfold in_range; lia|exact Has]|]. lia. }
  destruct Hb1 as [Hb1 Sb1], Ha1 as [Ha1 Sa1].
  destruct (IH _ _ _ _ Hb1 Ha1 Hrun) as (ts & -> & Hb' & Ha' & Sb & Sa).
  exists (MakeTrade bid' ask' q :: ts). rewrite <- app_assoc. split; [reflexivity|].
  split; [exact Hb'|]. split; [exact Ha'|]. rewrite !traded_sum_cons.
  change (TradeInfo.quantity_ (GetBidTrade (MakeTrade bid' ask' q))) with q.
  change (TradeInfo.quantity_ (GetAskTrade (MakeTrade bid' ask' q))) with q. lia.
Qed.

Lemma in_range_book ob :
  Forall in_range (book_orders ob) <->
  Forall in_range (ladder_orders (bids_ ob)) /\ Forall in_range (ladder_orders (asks_ ob)).
Proof. unfold book_orders. apply Forall_app. Qed.

Lemma MatchLoop_conserve fuel ob trades ob' trades' :
  Forall in_range (book_orders ob) -> MatchLoop fuel ob trades = Ok (ob', trades') ->
  exists ts, trades' = trades ++ ts /\ Forall in_range (book_orders ob') /\
    remaining_sum (ladder_orders (bids_ ob')) + traded_sum GetBidTrade ts =
      remaining_sum (ladder_orders (bids_ ob)) /\
    remaining_sum (ladder_orders (asks_ ob')) + traded_sum GetAskTrade ts =
      remaining_sum (ladder_orders (asks_ ob)).
Proof.
  revert ob trades. induction fuel as [|fuel IH]; intros ob trades Hr; simpl.
  { intros [= <- <-]. exists []. rewrite app_nil_r. simpl. auto with zarith. }
  destruct (bids_ ob) as [|[bp bq] bl] eqn:Eb.
  { intros [= <- <-]. exists []. rewrite app_nil_r, Eb. simpl. auto with zarith. }
  destruct (asks_ ob) as [|[ap aq] al] eqn:Ea.
  { intros [= <- <-]. exists []. rewrite app_nil_r, Eb, Ea. simpl. auto with zarith. }
  destruct (bp <? ap).
  { intros [= <- <-]. exists []. rewrite app_nil_r, Eb, Ea. simpl. auto with zarith. }
  apply in_range_book in Hr as [Hrb Hra]. rewrite Eb, ladder_orders_cons in Hrb.
  rewrite Ea, ladder_orders_cons in Hra.
  apply Forall_app in Hrb as [Hbq Hbl]. apply Forall_app in Hra as [Haq Hal].
  destruct (MatchLevels (length bq + length aq) bq aq (orders_ ob) trades) as [[[[b a] o] t]|e] eqn:Em;
    simpl; [|discriminate].
  intros Hrun. destruct (MatchLevels_conserve _ _ _ _ _ _ _ _ _ Hbq Haq Em) as (ts1 & -> & Hb & Ha & Sb & Sa).
  eapply IH in Hrun as (ts2 & -> & Hr' & Sb2 & Sa2);
    [|apply in_range_book; cbn [bids_ asks_]; rewrite !put_level_orders; split; apply Forall_app; auto].
  exists (ts1 ++ ts2). rewrite <- app_assoc. split; [reflexivity|]. split; [exact Hr'|].
  cbn [bids_ asks_] in Sb2, Sa2. rewrite put_level_orders, remaining_sum_app in Sb2, Sa2.
  rewrite !ladder_orders_cons, !remaining_sum_app, !traded_sum_app. split; lia.
Qed.

(** X10: the matching loop of MatchOrders conserves quantity: when every
    resting order's remaining quantity is a uint32 value, the total
    remaining quantity of the bid ladder falls by exactly the total
    quantity of the bid sides of the trades built, and the total of the
    ask ladder by exactly that of their ask sides. *)
Theorem MatchOrders_matching_conserves ob ob1 ts :
  Forall in_range (book_orders ob) -> MatchLoop (match_fuel ob) ob [] = Ok (ob1, ts) ->
  remaining_sum (ladder_orders (bids_ ob1)) + traded_sum GetBidTrade ts =
    remaining_sum (ladder_orders (bids_ ob)) /\
  remaining_sum (ladder_orders (asks_ ob1)) + traded_sum GetAskTrade ts =
    remaining_sum (ladder_orders (asks_ ob)).
Proof.
  intros Hr Hm. destruct (MatchLoop_conserve _ _ _ _ _ Hr Hm) as (ts' & E & _ & Sb & Sa).
  simpl in E. subst ts'. auto.
Qed.

Lemma MatchOrders_matching_conserves_witness :
  Forall in_range (book_orders book12) /\
  exists ob1 ts, MatchLoop (match_fuel book12) book12 [] = Ok (ob1, ts) /\
    remaining_sum (ladder_orders (bids_ ob1)) + traded_sum GetBidTrade ts =
      remaining_sum (ladder_orders (bids_ book12)) /\
    remaining_sum (ladder_orders (asks_ ob1)) + traded_sum GetAskTrade ts =
      remaining_sum (ladder_orders (asks_ book12)).
Proof.
  assert (Hr : Forall in_range (book_orders book12)).
  { apply List.Forall_forall. intros o Ho. unfold book_orders, book12, book1, InsertOrder, order1, order2 in Ho.
    simpl in Ho. unfold in_range. destruct Ho as [<-|[<-|[]]]; simpl; lia. }
  split; [exact Hr|].
  destruct (MatchLoop_ok (match_fuel book12) book12 []) as [[ob1 ts] Hm].
  exists ob1, ts. split; [exact Hm|]. exact (MatchOrders_matching_conserves book12 ob1 ts Hr Hm).
Defined.

(** *** Order::Fill, and cancelling twice *)

(** X12: filling a well-formed order ([0 <= remaining <= initial < 2^32])
    with a non-negative quantity, when Fill succeeds, raises the filled
    quantity by exactly that amount, and the order is then filled exactly
    when the quantity was all that remained. *)
Theorem Fill_filled_quantity o qty o' :
  0 <= GetRemainingQuantity o <= GetInitialQuantity o -> GetInitialQuantity o < 2 ^ 32 ->
  0 <= qty -> Fill o qty = Ok o' ->
  GetFilledQuantity o' = GetFilledQuantity o + qty /\
  (IsFilled o' = true <-> qty = GetRemainingQuantity o).
Proof.
  intros Hr Hi Hq. unfold Fill. destruct (qty >? GetRemainingQuantity o) eqn:E; [discriminate|].
  rewrite Z.gtb_ltb, Z.ltb_ge in E. intros [= <-].
  unfold GetFilledQuantity, IsFilled, GetRemainingQuantity, GetInitialQuantity, u32_sub in *. simpl.
  rewrite (Z.mod_small (remainingQuantity_ o - qty)) by lia.
  rewrite !Z.mod_small by lia. split; [lia|]. rewrite Z.eqb_eq. lia.
Qed.

(** X13: two successive fills of an order with [0 <= remaining < 2^32]
    by non-negative quantities leave it as a single fill by their sum. *)
Theorem Fill_compose o a b o1 o2 :
  0 <= GetRemainingQuantity o < 2 ^ 32 -> 0 <= a -> 0 <= b ->
  Fill o a = Ok o1 -> Fill o1 b = Ok o2 -> Fill o (a + b) = Ok o2.
Proof.
  intros Hr Ha Hb. unfold Fill. destruct (a >? GetRemainingQuantity o) eqn:E1; [discriminate|].
  rewrite Z.gtb_ltb, Z.ltb_ge in E1. intros [= <-].
  unfold GetRemainingQuantity, u32_sub in *. simpl.
  rewrite (Z.mod_small (remainingQuantity_ o - a)) by lia.
  destruct (b >? remainingQuantity_ o - a) eqn:E2; [discriminate|].
  rewrite Z.gtb_ltb, Z.ltb_ge in E2. intros [= <-].
  destruct (a + b >? remainingQuantity_ o) eqn:E3; [rewrite Z.gtb_lt in E3; lia|].
  do 2 f_equal. f_equal. lia.
Qed.

(** X14: a successful CancelOrder leaves the id out of the index, so
    cancelling the same id again changes nothing; this holds for any
    book. *)
Theorem CancelOrder_idempotent ob x ob' :
  CancelOrder ob x = Ok ob' -> CancelOrder ob' x = Ok ob'.
Proof.
  unfold CancelOrder. destruct (orders_ ob !! x) as [e|] eqn:Ex.
  - cbv zeta. destruct (GetSide (order_ e)).
    + destruct (level_at _ (bids_ ob)); [|discriminate]. intros [= <-]. simpl.
      rewrite lookup_delete_eq. reflexivity.
    + destruct (level_at _ (asks_ ob)); [|discriminate]. intros [= <-]. simpl.
      rewrite lookup_delete_eq. reflexivity.
  - intros [= <-]. rewrite Ex. reflexivity.
Qed.

(** X15: in a reachable book every price level is a queue in submission
    order (the order of the AddOrder calls that admitted them), and only
    its front order can have been partly filled. *)
Theorem levels_are_fifo ob h s k q :
  reachable ob h -> In (k, q) (side_ladder ob s) ->
  StronglySorted (submitted_before h) (map GetOrderId q) /\ Forall unfilled (tail q).
Proof.
  intros Hr Hin. destruct (reachable_inv _ _ Hr) as ([_ _ Hbl Hal _ _] & _).
  destruct s; simpl in Hin; [rewrite List.Forall_forall in Hbl; destruct (Hbl _ Hin) as (_ & _ & Hu & Hso)
                             |rewrite List.Forall_forall in Hal; destruct (Hal _ Hin) as (_ & _ & Hu & Hso)];
    split; assumption.
Qed.

Lemma Fill_filled_quantity_witness :
  Fill order1 10 = Ok (mkOrder GoodTillCancel 1 Buy 100 10 0) /\
  GetFilledQuantity (mkOrder GoodTillCancel 1 Buy 100 10 0) = GetFilledQuantity order1 + 10 /\
  (IsFilled (mkOrder GoodTillCancel 1 Buy 100 10 0) = true <-> 10 = GetRemainingQuantity order1).
Proof.
  assert (E : Fill order1 10 = Ok (mkOrder GoodTillCancel 1 Buy 100 10 0)) by (vm_compute; reflexivity).
  split; [exact E|].
  exact (Fill_filled_quantity order1 10 _ ltac:(vm_compute; split; discriminate)
           ltac:(vm_compute; reflexivity) ltac:(vm_compute; discriminate) E).
Defined.

Lemma Fill_compose_witness :
  Fill order1 3 = Ok (mkOrder GoodTillCancel 1 Buy 100 10 7) /\
  Fill (mkOrder GoodTillCancel 1 Buy 100 10 7) 4 = Ok (mkOrder GoodTillCancel 1 Buy 100 10 3) /\
  Fill order1 (3 + 4) = Ok (mkOrder GoodTillCancel 1 Buy 100 10 3).
Proof.
  assert (E1 : Fill order1 3 = Ok (mkOrder GoodTillCancel 1 Buy 100 10 7)) by (vm_compute; reflexivity).
  assert (E2 : Fill (mkOrder GoodTillCancel 1 Buy 100 10 7) 4 = Ok (mkOrder GoodTillCancel 1 Buy 100 10 3))
    by (vm_compute; reflexivity).
  split; [exact E1|]. split; [exact E2|].
  exact (Fill_compose order1 3 4 _ _ ltac:(vm_compute; split; [discriminate|reflexivity])
           ltac:(vm_compute; discriminate) ltac:(vm_compute; discriminate) E1 E2).
Defined.

Lemma CancelOrder_idempotent_witness :
  CancelOrder book56 5 = Ok (mkBook [(10, [order6])] [] (delete 5 (orders_ book56))) /\
  CancelOrder (mkBook [(10, [order6])] [] (delete 5 (orders_ book56))) 5 =
    Ok (mkBook [(10, [order6])] [] (delete 5 (orders_ book56))).
Proof.
  assert (E : CancelOrder book56 5 = Ok (mkBook [(10, [order6])] [] (delete 5 (orders_ book56))))
    by reflexivity.
  split; [exact E|]. exact (CancelOrder_idempotent book56 5 _ E).
Defined.

Lemma levels_are_fifo_witness :
  reachable book56 [5; 6] /\ In (10, [order5; order6]) (side_ladder book56 Buy) /\
  StronglySorted (submitted_before [5; 6]) [5; 6] /\ Forall unfilled [order6].
Proof.
  assert (Hin : In (10, [order5; order6]) (side_ladder book56 Buy)) by (simpl; auto).
  split; [exact reachable_book56|]. split; [exact Hin|].
  exact (levels_are_fifo book56 [5; 6] Buy 10 [order5; order6] reachable_book56 Hin).
Defined.

(** *** What AddOrder leaves in the book *)

Lemma MatchOrders_body_sub ob h ob' ts :
  book_inv ob h -> MatchOrders_body ob = Ok (ob', ts) ->
  ladder_sub (bids_ ob') (bids_ ob) /\ ladder_sub (asks_ ob') (asks_ ob).
Proof.
  intros Hinv. unfold MatchOrders_body.
  destruct (MatchLoop (match_fuel ob) ob []) as [[ob1 tr1]|e] eqn:Em; simpl; [|discriminate].
  destruct (MatchLoop_inv _ _ _ _ _ _ Hinv Em) as (Hinv1 & Hb1 & Ha1 & _).
  destruct (CancelFrontFillAndKill ob1 (bids_ ob1)) as [ob2|e] eqn:E2; simpl; [|discriminate].
  destruct (CancelFrontFillAndKill ob2 (asks_ ob2)) as [ob3|e] eqn:E3; simpl; [|discriminate].
  intros [= <- _].
  destruct (CancelFront_inv _ _ _ _ Hinv1 E2) as (Hinv2 & Hb2 & Ha2).
  destruct (CancelFront_inv _ _ _ _ Hinv2 E3) as (_ & Hb3 & Ha3).
  split; eapply ladder_sub_trans; eauto; eapply ladder_sub_trans; eauto.
Qed.

Lemma AddOrder_orders_from ob h o ob' r :
  reach_inv ob h -> unfilled o -> AddOrder ob o = Ok (ob', r) ->
  forall o', In o' (book_orders ob') ->
    exists o0, (In o0 (book_orders ob) \/ o0 = o) /\ same_key o0 o'.
Proof.
  intros Hri Hu Ha o' Ho'. revert Ha. unfold AddOrder.
  destruct (contains (orders_ ob) (GetOrderId o)) eqn:Ec;
    [intros [= <- _]; exists o'; split; [left; exact Ho'|apply same_key_refl]|].
  destruct (OrderType_eqb (GetOrderType o) FillAndKill && negb (CanMatch ob (GetSide o) (GetPrice o)))
    eqn:Ef; [intros [= <- _]; exists o'; split; [left; exact Ho'|apply same_key_refl]|].
  assert (Hfk : is_fak o = false \/ CanMatch ob (GetSide o) (GetPrice o) = true).
  { unfold is_fak. destruct (OrderType_eqb (GetOrderType o) FillAndKill); [right|left; reflexivity].
    simpl in Ef. destruct (CanMatch ob (GetSide o) (GetPrice o)); [reflexivity|discriminate]. }
  destruct (InsertOrder_inv ob h o Hri Ec Hu Hfk) as (Hinv & _).
  unfold MatchOrders. destruct (MatchOrders_body (InsertOrder ob o)) as [[ob1 tr]|e] eqn:Eb;
    simpl; [|discriminate]. intros [= <- _].
  destruct (MatchOrders_body_sub _ _ _ _ Hinv Eb) as [Hb Ha].
  assert (Hin : exists o0, In o0 (book_orders (InsertOrder ob o)) /\ same_key o0 o').
  { unfold book_orders in Ho'. apply in_app_or in Ho' as [Ho'|Ho'];
      [destruct (ladder_sub_orders _ _ _ Hb Ho') as (o0 & Hin0 & Hk)
      |destruct (ladder_sub_orders _ _ _ Ha Ho') as (o0 & Hin0 & Hk)];
      exists o0; (split; [|exact Hk]); unfold book_orders; apply in_or_app; auto. }
  destruct Hin as (o0 & Hin0 & Hk). exists o0. split; [|exact Hk].
  apply (Permutation_in _ (InsertOrder_orders ob o)) in Hin0.
  apply in_app_or in Hin0 as [Hin0|[<-|[]]]; [left; exact Hin0|right; reflexivity].
Qed.

(** X16: on a reachable book, every order resting after an AddOrder call
    is an order that rested before or the submitted one, with the same
    type, id, side, price and initial quantity: AddOrder creates no other
    order and changes no order's identity or price. *)
Theorem AddOrder_no_new_orders ob h t i s p q ob' r :
  reachable ob h -> AddOrder ob (Order_new t i s p q) = Ok (ob', r) ->
  forall o', rests ob' o' ->
    exists o0, (rests ob o0 \/ o0 = Order_new t i s p q) /\ same_key o0 o'.
Proof.
  intros Hr Ha o' Ho'.
  exact (AddOrder_orders_from ob h (Order_new t i s p q) ob' r (reachable_inv _ _ Hr) eq_refl Ha o' Ho').
Qed.

Lemma AddOrder_no_new_orders_witness :
  reachable book5 [5] /\ AddOrder book5 order7 = Ok (book57, None) /\
  exists o0, (rests book5 o0 \/ o0 = order7) /\ same_key o0 order7.
Proof.
  assert (Ha : AddOrder book5 order7 = Ok (book57, None)) by (vm_compute; reflexivity).
  split; [exact reachable_book5|]. split; [exact Ha|].
  exact (AddOrder_no_new_orders book5 [5] GoodTillCancel 7 Sell 12 3 book57 None reachable_book5 Ha order7
           ltac:(unfold rests, book_orders; simpl; auto)).
Defined.
